(** * AppSafeguard scanner: crawl coordinator, custom rules, summary

    A shallow embedding of [server/utils/scan-utils.ts] (class [Scanner]
    and [runScan]).  JavaScript strings are [string], the integer fields
    are [Z], arrays are lists, the [Set<string>] of visited URLs is a
    duplicate-free list in insertion order (the order [Array.from]
    returns).  The libraries the scanner calls ([URL], [axios],
    [cheerio], [RegExp], the vulnerability detector) are parameters of
    the development. *)

From Equations Require Import Equations.
From Equations.Prop Require Import Logic.
From Stdlib Require Import Ascii String List ZArith QArith Qround Bool Lia Permutation.
Import ListNotations.
Local Open Scope string_scope.
Local Open Scope list_scope.
Local Open Scope Z_scope.

(** ** Data model *)

(** JSON payload of [details]. *)
Inductive JsonValue : Type :=
| JString (s : string)
| JNumber (n : Z)
| JBool (b : bool).

(** [InsertVulnerability] of the shared schema: a finding. *)
Record InsertVulnerability : Type := mkVulnerability {
  scanId : Z;
  name : string;
  description : string;
  url : string;
  severity : string;
  category : string;
  details : list (string * JsonValue);
  status : string
}.

(** A row of the [custom_rules] table, as handed over in [customRules]. *)
Record CustomRule : Type := mkRule {
  rule_id : Z;
  rule_name : string;
  rule_description : string;
  rule_category : string;
  rule_pattern : string;
  rule_severity : string;
  rule_enabled : bool
}.

Record ScanOptions : Type := mkOptions {
  opt_url : string;
  opt_scanLevel : string;
  opt_crawlLimit : Z;
  opt_useAuthentication : bool;
  opt_includeCustomRules : bool;
  opt_customRules : option (list CustomRule)
}.

Record Summary : Type := mkSummary {
  totalVulnerabilities : Z;
  highSeverity : Z;
  mediumSeverity : Z;
  lowSeverity : Z;
  securityScore : Z
}.

Record ScanResult : Type := mkResult {
  scannedUrls : list string;
  vulnerabilities : list InsertVulnerability;
  summary : Summary
}.

(** ** Summary aggregator *)

(** [vulnerabilities.filter(v => v.severity === s).length] *)
Definition severity_count (s : string) (vs : list InsertVulnerability) : Z :=
  Z.of_nat (length (filter (fun v => String.eqb (severity v) s) vs)).

Definition calculateSummary (vs : list InsertVulnerability) : Summary :=
  let high := severity_count "high" vs in
  let medium := severity_count "medium" vs in
  let low := severity_count "low" vs in
  let total := Z.of_nat (length vs) in
  let score := 100 - (high * 10 + medium * 5 + low * 2) in
  let score := Z.max 0 score in
  let score := Z.min 100 score in
  mkSummary total high medium low score.

(** The specification's vocabulary, independent of the code above. *)
Definition clamp (x lo hi : Z) : Z :=
  if x <? lo then lo else if hi <? x then hi else x.

Fixpoint occurrences (s : string) (vs : list InsertVulnerability) : nat :=
  match vs with
  | [] => 0%nat
  | v :: vs' =>
      if string_dec (severity v) s then S (occurrences s vs')
      else occurrences s vs'
  end.

Definition bucketed (v : InsertVulnerability) : Prop :=
  severity v = "high" \/ severity v = "medium" \/ severity v = "low".

(** ** The platform the scanner runs on *)

(** A thrown value; [message] is [Some m] when
    [typeof error.message === 'string']. *)
Record Thrown : Type := mkThrown { message : option string }.

(** [new URL(u)]: the two components the constructor reads. *)
Record ParsedURL : Type := mkParsed { protocol : string; host : string }.

(** The library calls of [scan-utils.ts].  A call that throws returns
    [None] or [inr]. *)
Class Platform : Type := {
  (** the axios response object *)
  Response : Type;
  (** [response.data] *)
  data : Response -> string;
  (** [new URL(u)] *)
  URL_parse : string -> option ParsedURL;
  (** [new URL(link, base).href] *)
  URL_href : string -> string -> option string;
  (** [await axios.get(u, {...})] *)
  axios_get : string -> Response + Thrown;
  (** [await vulnerabilityDetector.detectVulnerabilities(u, response, level)];
      the detector module is imported, its code is not part of this file *)
  detectVulnerabilities :
    string -> Response -> string -> list InsertVulnerability + Thrown;
  (** [new RegExp(pattern, 'i').test(content)]; [None] when the pattern
      does not compile *)
  RegExp_test : string -> string -> option bool;
  (** [$('a[href]').map((_, el) => $(el).attr('href')).get()] after
      [cheerio.load(html)] *)
  cheerio_hrefs : string -> option (list string)
}.

(** ** The Scanner object *)

(** The fields of [class Scanner].  [pushed] is a ghost field: the history
    of every [queue.push], which no operation reads. *)
Record Scanner : Type := mkScanner {
  options : ScanOptions;
  visited : list string;
  queue : list string;
  maxPages : Z;
  baseUrl : string;
  customRules : list CustomRule;
  scanLevel : string;
  pushed : list string
}.

Definition set_maxPages (sc : Scanner) (n : Z) : Scanner :=
  mkScanner (options sc) (visited sc) (queue sc) n (baseUrl sc)
            (customRules sc) (scanLevel sc) (pushed sc).

Definition set_queue (sc : Scanner) (q : list string) : Scanner :=
  mkScanner (options sc) (visited sc) q (maxPages sc) (baseUrl sc)
            (customRules sc) (scanLevel sc) (pushed sc).

Definition set_visited (sc : Scanner) (v : list string) : Scanner :=
  mkScanner (options sc) v (queue sc) (maxPages sc) (baseUrl sc)
            (customRules sc) (scanLevel sc) (pushed sc).

(** [this.queue.push(u)] *)
Definition queue_push (sc : Scanner) (u : string) : Scanner :=
  mkScanner (options sc) (visited sc) (queue sc ++ [u]) (maxPages sc)
            (baseUrl sc) (customRules sc) (scanLevel sc) (pushed sc ++ [u]).

(** [Set.prototype.has], [Array.prototype.includes] *)
Definition includes (l : list string) (u : string) : bool :=
  existsb (String.eqb u) l.

(** [Set.prototype.add] *)
Definition Set_add (s : list string) (u : string) : list string :=
  if includes s u then s else s ++ [u].

Definition startsWith (s p : string) : bool := String.prefix p s.

Section ScannerCode.
Context {PF : Platform}.

(** [constructor(options)]; [inl] is the thrown [Error]'s message. *)
Definition Scanner_new (o : ScanOptions) : string + Scanner :=
  match URL_parse (opt_url o) with
  | Some parsedUrl =>
      inr (mkScanner o [] [opt_url o] (opt_crawlLimit o)
             (String.append (protocol parsedUrl)
                (String.append "//" (host parsedUrl)))
             (match opt_customRules o with Some rs => rs | None => [] end)
             (opt_scanLevel o)
             [opt_url o])
  | None => inl "Invalid URL format"
  end.

(** The finding pushed by [checkCustomRules] for a matching rule. *)
Definition ruleFinding (u : string) (rule : CustomRule) : InsertVulnerability :=
  mkVulnerability 0 (rule_name rule) (rule_description rule) u
    (rule_severity rule) (rule_category rule)
    [("rule", JNumber (rule_id rule)); ("matched", JBool true)]
    "pending".

(** One turn of the [for (const rule of this.customRules)] loop. *)
Definition checkCustomRules_step (u content : string)
    (acc : list InsertVulnerability) (rule : CustomRule)
    : list InsertVulnerability :=
  if rule_enabled rule then
    match RegExp_test (rule_pattern rule) content with
    | Some true => acc ++ [ruleFinding u rule]
    | Some false => acc
    | None => acc
    end
  else acc.

(** [checkCustomRules(url, content)], reading [this.customRules]. *)
Definition checkCustomRules (rules : list CustomRule) (u content : string)
    : list InsertVulnerability :=
  fold_left (checkCustomRules_step u content) rules [].

(** The test on a raw [href] that makes the link loop [continue]. *)
Definition skipped_href (link : string) : bool :=
  String.eqb link ""
  || startsWith link "javascript:"
  || startsWith link "mailto:"
  || startsWith link "#".

(** One turn of the [for (const link of links)] loop. *)
Definition extractLinks_step (pageUrl : string) (sc : Scanner) (link : string)
    : Scanner :=
  if skipped_href link then sc
  else
    match URL_href link pageUrl with
    | None => sc
    | Some absoluteUrl =>
        if startsWith absoluteUrl (baseUrl sc)
           && negb (includes (visited sc) absoluteUrl)
           && negb (includes (queue sc) absoluteUrl)
        then queue_push sc absoluteUrl
        else sc
    end.

(** [extractLinks(baseUrl, html)] *)
Definition extractLinks (sc : Scanner) (pageUrl html : string) : Scanner :=
  match cheerio_hrefs html with
  | Some links => fold_left (extractLinks_step pageUrl) links sc
  | None => sc
  end.

(** [errorMessage] of the [catch] block of [run]. *)
Definition errorMessage (e : Thrown) : string :=
  match message e with
  | Some m => m
  | None => "Unknown error occurred"
  end.

(** The finding pushed by the [catch] block of [run]. *)
Definition accessError (u : string) (e : Thrown) : InsertVulnerability :=
  mkVulnerability 0 "URL Access Error"
    (String.append "Could not access "
       (String.append u (String.append ": " (errorMessage e))))
    u "low" "Accessibility"
    [("error", JString (errorMessage e))]
    "pending".

Definition LoopState : Type := (Scanner * list InsertVulnerability)%type.

(** The [try] block of the loop body, after [visited.add(currentUrl)]. *)
Definition scanPage (sc : Scanner) (vs : list InsertVulnerability)
    (currentUrl : string) : LoopState :=
  match axios_get currentUrl with
  | inr error => (sc, vs ++ [accessError currentUrl error])
  | inl response =>
      match detectVulnerabilities currentUrl response (scanLevel sc) with
      | inr error => (sc, vs ++ [accessError currentUrl error])
      | inl detected =>
          let vs1 := vs ++ detected in
          let vs2 :=
            if opt_includeCustomRules (options sc)
               && (0 <? Z.of_nat (length (customRules sc)))
            then vs1 ++ checkCustomRules (customRules sc) currentUrl
                          (data response)
            else vs1 in
          let sc' :=
            if negb (String.eqb (scanLevel sc) "quick")
            then extractLinks sc currentUrl (data response)
            else sc in
          (sc', vs2)
      end
  end.

(** The body of the [while] loop of [run]. *)
Definition loop_body (st : LoopState) : LoopState :=
  let (sc, vs) := st in
  match queue sc with
  | [] => st (* not reached: [loop_cond] holds on entry *)
  | currentUrl :: rest =>
      let sc := set_queue sc rest in
      if includes (visited sc) currentUrl then (sc, vs)
      else scanPage (set_visited sc (Set_add (visited sc) currentUrl))
                    vs currentUrl
  end.

(** [this.queue.length > 0 && this.visited.size < this.maxPages] *)
Definition loop_cond (st : LoopState) : bool :=
  (0 <? Z.of_nat (length (queue (fst st))))
  && (Z.of_nat (length (visited (fst st))) <? maxPages (fst st)).

Definition loop_measure (st : LoopState) : nat * nat :=
  (Z.to_nat (maxPages (fst st) - Z.of_nat (length (visited (fst st)))),
   length (queue (fst st))).

(** Frame properties of link extraction, used for termination. *)
Lemma extractLinks_step_frame pageUrl sc link :
  let sc' := extractLinks_step pageUrl sc link in
  visited sc' = visited sc /\ maxPages sc' = maxPages sc
  /\ baseUrl sc' = baseUrl sc /\ scanLevel sc' = scanLevel sc
  /\ customRules sc' = customRules sc /\ options sc' = options sc.
Proof.
  unfold extractLinks_step.
  destruct (skipped_href link); [tauto|].
  destruct (URL_href link pageUrl); [|tauto].
  match goal with |- context [if ?c then _ else _] => destruct c end;
    simpl; tauto.
Qed.

Lemma extractLinks_frame sc pageUrl html :
  let sc' := extractLinks sc pageUrl html in
  visited sc' = visited sc /\ maxPages sc' = maxPages sc
  /\ baseUrl sc' = baseUrl sc /\ scanLevel sc' = scanLevel sc
  /\ customRules sc' = customRules sc /\ options sc' = options sc.
Proof.
  unfold extractLinks.
  destruct (cheerio_hrefs html) as [links|]; [|tauto].
  revert sc. induction links as [|l links IH]; intros sc; simpl; [tauto|].
  specialize (IH (extractLinks_step pageUrl sc l)). simpl in IH.
  pose proof (extractLinks_step_frame pageUrl sc l) as F. simpl in F.
  intuition congruence.
Qed.

Lemma scanPage_frame sc vs u :
  let sc' := fst (scanPage sc vs u) in
  visited sc' = visited sc /\ maxPages sc' = maxPages sc
  /\ baseUrl sc' = baseUrl sc /\ scanLevel sc' = scanLevel sc
  /\ customRules sc' = customRules sc /\ options sc' = options sc.
Proof.
  unfold scanPage.
  destruct (axios_get u) as [r|e]; simpl; [|tauto].
  destruct (detectVulnerabilities u r (scanLevel sc)); simpl; [|tauto].
  destruct (negb (String.eqb (scanLevel sc) "quick")); [|tauto].
  apply extractLinks_frame.
Qed.

Lemma visit_decreases sc vs u rest :
  includes (visited sc) u = false ->
  loop_cond (sc, vs) = true ->
  (fst (loop_measure
          (scanPage (set_visited (set_queue sc rest) (Set_add (visited sc) u))
                    vs u))
   < fst (loop_measure (sc, vs)))%nat.
Proof.
  intros Ein H. unfold loop_cond, loop_measure in *. simpl in *.
  apply andb_prop in H. destruct H as [_ Hv]. apply Z.ltb_lt in Hv.
  pose proof (scanPage_frame
                (set_visited (set_queue sc rest) (Set_add (visited sc) u))
                vs u) as F.
  simpl in F. destruct F as (Fv & Fm & _).
  rewrite Fv, Fm. unfold Set_add. rewrite Ein, length_app. simpl. lia.
Qed.

(** Each turn of the loop decreases (pages left, queue length)
    lexicographically.  The proof term branches on the data only, so that
    [run_loop] evaluates on closed states. *)
Lemma loop_body_decreases (st : LoopState) :
  loop_cond st = true ->
  Subterm.lexprod _ _ lt lt (loop_measure (loop_body st)) (loop_measure st).
Proof.
  destruct st as [[o v q m b r l p] vs].
  destruct q as [|u rest]; intros H.
  - exfalso. exact (Bool.diff_false_true H).
  - pose proof (fun E => visit_decreases
                  (mkScanner o v (u :: rest) m b r l p) vs u rest E H) as Hlt.
    unfold loop_body, loop_measure, set_queue in *.
    cbn [fst snd queue visited maxPages options baseUrl customRules
         scanLevel pushed] in *.
    destruct (includes v u).
    + apply Subterm.right_lex. apply Nat.lt_succ_diag_r.
    + specialize (Hlt eq_refl).
      destruct (scanPage _ vs u) as [sc' vs'].
      apply Subterm.left_lex. exact Hlt.
Defined.

(** The [while] loop of [run]. *)
Equations run_loop (st : LoopState) : LoopState
  by wf (loop_measure st) (Subterm.lexprod _ _ lt lt) :=
  run_loop st with inspect (loop_cond st) := {
    | exist _ true H => run_loop (loop_body st);
    | exist _ false _ => st }.
Next Obligation. exact (loop_body_decreases st H). Defined.

(** The state in which the loop of [run()] exits. *)
Definition run_state (sc : Scanner) : LoopState :=
  let sc := if maxPages sc <=? 0 then set_maxPages sc 1 else sc in
  run_loop (sc, []).

(** [run()] *)
Definition run (sc : Scanner) : ScanResult :=
  let (sc', vs) := run_state sc in
  mkResult (visited sc') vs (calculateSummary vs).

(** [runScan(options)]; [inl] is the message of the thrown error. *)
Definition runScan (o : ScanOptions) : string + ScanResult :=
  match Scanner_new o with
  | inl msg => inl msg
  | inr scanner => inr (run scanner)
  end.

(** The findings the loop body appends for a page it visits. *)
Definition pageFindings (sc : Scanner) (u : string) : list InsertVulnerability :=
  snd (scanPage sc [] u).

(** The specification's vocabulary for custom rules. *)

(** The rule's pattern compiles and matches somewhere in [content]. *)
Definition matches (rule : CustomRule) (content : string) : bool :=
  match RegExp_test (rule_pattern rule) content with
  | Some true => true
  | _ => false
  end.

(** The finding's details record rule [id] and the match flag. *)
Definition from_rule (id : Z) (f : InsertVulnerability) : bool :=
  match details f with
  | [(k1, JNumber n); (k2, JBool true)] =>
      String.eqb k1 "rule" && (n =? id) && String.eqb k2 "matched"
  | _ => false
  end.

(** The options, and the scanner, with another rule list. *)
Definition options_with_rules (rules : list CustomRule) (o : ScanOptions)
    : ScanOptions :=
  mkOptions (opt_url o) (opt_scanLevel o) (opt_crawlLimit o)
    (opt_useAuthentication o) (opt_includeCustomRules o) (Some rules).

Definition with_rules (rules : list CustomRule) (sc : Scanner) : Scanner :=
  mkScanner (options_with_rules rules (options sc))
    (visited sc) (queue sc) (maxPages sc) (baseUrl sc) rules
    (scanLevel sc) (pushed sc).

End ScannerCode.

(** ** A concrete platform for the examples

    A small web given as a table of pages.  It fixes the library calls on
    the inputs the examples use: absolute [scheme://host/path] URLs and
    root-relative links, literal lower-case patterns, and pages whose
    anchors are listed next to their body. *)

Record Page : Type := mkPage {
  page_url : string;
  page_body : string;
  page_hrefs : list string
}.

(** The text before the first [c], and the text after it. *)
Fixpoint split_at (c : Ascii.ascii) (s : string) : option (string * string) :=
  match s with
  | EmptyString => None
  | String a s' =>
      if Ascii.eqb a c then Some (EmptyString, s')
      else match split_at c s' with
           | Some (l, r) => Some (String a l, r)
           | None => None
           end
  end.

(** The text before the first of [/], [?], [#]. *)
Fixpoint authority (s : string) : string :=
  match s with
  | EmptyString => EmptyString
  | String a s' =>
      if Ascii.eqb a "/"%char || Ascii.eqb a "?"%char || Ascii.eqb a "#"%char
      then EmptyString
      else String a (authority s')
  end.

(** [scheme://host...] without credentials: scheme up to the colon, host up
    to the path. *)
Definition parse_absolute (u : string) : option ParsedURL :=
  match split_at ":"%char u with
  | Some (scheme, rest) =>
      if String.eqb scheme "" then None
      else if startsWith rest "//"
           then Some (mkParsed (String.append scheme ":")
                        (authority (substring 2 (String.length rest) rest)))
           else None
  | None => None
  end.

(** Absolute links resolve to themselves, with [/] for an empty path;
    root-relative links resolve against the origin of the page. *)
Definition resolve_href (link base : string) : option string :=
  match parse_absolute link with
  | Some l =>
      if String.eqb link
           (String.append (protocol l) (String.append "//" (host l)))
      then Some (String.append link "/")
      else Some link
  | None =>
      if startsWith link "/" then
        match parse_absolute base with
        | Some b => Some (String.append (protocol b)
                            (String.append "//" (String.append (host b) link)))
        | None => None
        end
      else None
  end.

(** Substring search. *)
Fixpoint contains (p s : string) : bool :=
  String.prefix p s
  || match s with
     | EmptyString => false
     | String _ s' => contains p s'
     end.

(** A literal pattern matches where it occurs; an unbalanced [(] does not
    compile. *)
Definition literal_test (pattern content : string) : option bool :=
  if String.eqb pattern "(" then None else Some (contains pattern content).

Definition fetch_page (site : list Page) (u : string) : string + Thrown :=
  match find (fun p => String.eqb (page_url p) u) site with
  | Some p => inl (page_body p)
  | None => inr (mkThrown (Some "getaddrinfo ENOTFOUND"))
  end.

Definition anchors_of (site : list Page) (html : string) : option (list string) :=
  match find (fun p => String.eqb (page_body p) html) site with
  | Some p => Some (page_hrefs p)
  | None => Some []
  end.

(** The platform serving [site]; its detector reports nothing. *)
Definition webOf (site : list Page) : Platform := {|
  Response := string;
  data := fun r => r;
  URL_parse := parse_absolute;
  URL_href := resolve_href;
  axios_get := fetch_page site;
  detectVulnerabilities := fun _ _ _ => inl [];
  RegExp_test := literal_test;
  cheerio_hrefs := anchors_of site
|}.

Definition demoSite : list Page :=
  [ mkPage "http://example.com/"
      "<a href='/a'>a</a> <a href='/b'>b</a> <a href='/a'>again</a> password = 'hunter2'"
      ["/a"; "/b"; "/a"];
    mkPage "http://example.com/a"
      "<a href='/b'>b</a> <a href='http://example.com'>home</a>"
      ["/b"; "http://example.com"];
    mkPage "http://example.com/b"
      "<a href='/c'>c</a> password = 'letmein'"
      ["/c"] ].

Definition passwordRule : CustomRule :=
  mkRule 1 "Hard-coded password" "A password appears in the page" "Secrets"
    "password" "high" true.

Definition brokenRule : CustomRule :=
  mkRule 2 "Broken rule" "Pattern does not compile" "Misc" "(" "medium" true.

Definition homeRule : CustomRule :=
  mkRule 3 "Home link" "The page links home" "Info" "home" "safe" true.

Definition demoRules : list CustomRule :=
  [passwordRule; brokenRule; homeRule].

Definition demoOptions (level : string) (limit : Z) : ScanOptions :=
  mkOptions "http://example.com/" level limit false true (Some demoRules).

(** The scanner [new Scanner(demoOptions level limit)] builds. *)
Definition demoScanner (level : string) (limit : Z) : Scanner :=
  mkScanner (demoOptions level limit) [] ["http://example.com/"] limit
    "http://example.com" demoRules level ["http://example.com/"].

(** A page of example.com that links to a host whose name begins with
    example.com. *)
Definition lookalikeSite : list Page :=
  [ mkPage "http://example.com/"
      "<a href='http://example.com.evil.com/'>partner</a>"
      ["http://example.com.evil.com/"];
    mkPage "http://example.com.evil.com/" "<p>elsewhere</p>" [] ].

Definition lookalikeOptions : ScanOptions :=
  mkOptions "http://example.com/" "standard" 5 false false None.

(** A seed whose first link is dead and whose second is alive. *)
Definition gapSite : list Page :=
  [ mkPage "http://example.com/"
      "<a href='/gone'>gone</a> <a href='/here'>here</a>"
      ["/gone"; "/here"];
    mkPage "http://example.com/here" "<p>still here</p>" [] ].

(** [new URL] on a URL whose scheme is not followed by two slashes and
    is not one of the special schemes: an opaque path, and an empty host
    (mailto:a@b.c has protocol mailto: and host the empty string). *)
Definition parse_opaque (u : string) : option ParsedURL :=
  match parse_absolute u with
  | Some p => Some p
  | None =>
      match split_at ":"%char u with
      | Some (scheme, rest) =>
          if String.eqb scheme "" || startsWith rest "//" then None
          else Some (mkParsed (String.append scheme ":") "")
      | None => None
      end
  end.

(** A platform on which nothing can be fetched, whose [new URL] also
    accepts URLs with an opaque path. *)
Definition opaqueWeb : Platform := {|
  Response := string;
  data := fun r => r;
  URL_parse := parse_opaque;
  URL_href := resolve_href;
  axios_get := fun _ => inr (mkThrown (Some "Unsupported protocol"));
  detectVulnerabilities := fun _ _ _ => inl [];
  RegExp_test := literal_test;
  cheerio_hrefs := fun _ => Some []
|}.

Definition gapOptions : ScanOptions :=
  mkOptions "http://example.com/" "standard" 5 false false None.

(** The scanner [new Scanner(gapOptions)] builds. *)
Definition gapScanner : Scanner :=
  mkScanner gapOptions [] ["http://example.com/"] 5 "http://example.com" []
    "standard" ["http://example.com/"].

Definition sampleFindings : list InsertVulnerability :=
  [ mkVulnerability 0 "Missing CSP" "No Content-Security-Policy header"
      "http://example.com" "high" "Headers" [] "pending";
    mkVulnerability 0 "Cookie without Secure" "Cookie lacks the Secure flag"
      "http://example.com" "medium" "Cookies" [] "pending";
    mkVulnerability 0 "Server banner" "Server header discloses a version"
      "http://example.com/a" "low" "Disclosure" [] "pending";
    mkVulnerability 0 "Home link" "The page links home"
      "http://example.com/a" "safe" "Info" [] "pending" ].

(** ** The scan controller

    [createScan] of [server/controllers/scan-controller.ts] answers the
    request and then runs [doScan] detached.  [doScan] talks to the storage
    layer, which is not part of the scanner: its calls are recorded in a
    trace, and whether a call throws, what the rule query returns and what
    the clock shows are given by the backend. *)

(** A caught value: [message], [code] and [stack] when they are strings. *)
Record CaughtError : Type := mkCaught {
  err_message : option string;
  err_code : option string;
  err_stack : option string
}.

(** [validation.data]: the request body after [scanRequestSchema]. *)
Record ScanData : Type := mkScanData {
  sd_url : string;
  sd_scanLevel : string;
  sd_crawlLimit : Z;
  sd_useAuthentication : bool;
  sd_includeCustomRules : bool
}.

(** The [result] stored with a completed scan. *)
Record CompletedResult : Type := mkCompleted {
  res_summary : Summary;
  res_scannedUrls : list string;
  res_scanLevel : string;
  res_scanDuration : Q;
  res_totalPages : Z;
  res_vulnerabilitiesCount : Z;
  res_timestamp : string
}.

(** The [result] stored with a failed scan. *)
Record FailedResult : Type := mkFailed {
  fail_error : string;
  fail_scanLevel : string;
  fail_scanDuration : Q;
  fail_url : string;
  fail_timestamp : string;
  fail_failureReason : string;
  fail_stackTrace : string
}.

Inductive StoredResult : Type :=
| ResultCompleted (r : CompletedResult)
| ResultFailed (r : FailedResult).

(** The partial scan record passed to [storage.updateScan]. *)
Record ScanUpdate : Type := mkUpdate {
  upd_status : string;
  upd_startedAt : option Z;
  upd_completedAt : option Z;
  upd_result : option StoredResult
}.

Inductive EventMetadata : Type :=
| CompletedMetadata (scanId : Z) (vulnerabilities : Summary)
| FailedMetadata (scanId : Z) (error : string)
| DeletedMetadata (scanId : Z).

Record SecurityEvent : Type := mkEvent {
  ev_userId : Z;
  ev_type : string;
  ev_description : string;
  ev_metadata : option EventMetadata
}.

(** A row of the [scans] table. *)
Record Scan : Type := mkScan {
  scan_id : Z;
  scan_userId : Z;
  scan_url : string;
  scan_scanLevel : string;
  scan_crawlLimit : Z;
  scan_useAuthentication : bool;
  scan_includeCustomRules : bool;
  scan_status : string;
  scan_startedAt : option Z;
  scan_completedAt : option Z;
  scan_result : option StoredResult
}.

(** A row of the [vulnerabilities] table. *)
Record Vulnerability : Type := mkRow {
  row_id : Z;
  row_fields : InsertVulnerability;
  row_createdAt : option Z;
  row_updatedAt : option Z
}.

(** [req.user] *)
Record User : Type := mkUser { user_id : Z; username : string }.

(** What the handlers read of the request; [params_id] is
    [parseInt(req.params.id, 10)], [None] for [NaN]. *)
Record Request : Type := mkRequest {
  isAuthenticated : bool;
  user : User;
  params_id : option Z
}.

Inductive ResponseBody : Type :=
| Message (message : string)
| ScanBody (scan : Scan)
| ScansBody (scans : list Scan)
| VulnerabilitiesBody (rows : list Vulnerability).

(** [res.status(code).json(body)] *)
Record HttpResponse : Type := mkResponse {
  res_status : Z;
  res_body : ResponseBody
}.

(** The calls the controller makes on [storage]. *)
Inductive StorageCall : Type :=
| UpdateScan (id : Z) (update : ScanUpdate)
| GetCustomRulesByUserId (userId : Z)
| CreateVulnerability (v : InsertVulnerability)
| CreateSecurityEvent (ev : SecurityEvent)
| GetScan (id : Z)
| DeleteScan (id : Z)
| DeleteAllScansByUserId (userId : Z)
| GetScansByUserId (userId : Z)
| GetVulnerabilitiesByScanId (scanId : Z).

Definition Trace : Type := list StorageCall.

(** What [doScan] cannot decide itself.  Times are milliseconds since the
    epoch; [clock t k] is the [k]-th [new Date()] read after the calls
    [t]. *)
Class Backend : Type := {
  (** the call throws after the calls made so far *)
  storage_throws : Trace -> StorageCall -> option CaughtError;
  (** the rows [getCustomRulesByUserId] resolves to *)
  rules_of_user : Trace -> Z -> list CustomRule;
  (** what [getScan], [getScansByUserId] and [getVulnerabilitiesByScanId]
      resolve to *)
  scan_of_id : Trace -> Z -> option Scan;
  scans_of_user : Trace -> Z -> list Scan;
  rows_of_scan : Trace -> Z -> list Vulnerability;
  clock : Trace -> nat -> Z;
  (** [Date.prototype.toISOString] *)
  toISOString : Z -> string;
  (** the [stack] of [new Error(message)] *)
  Error_stack : string -> string
}.

(** An asynchronous computation over the storage: the calls made so far go
    in, the calls made and a value or a thrown error come out. *)
Definition Effect (A : Type) : Type := Trace -> Trace * (CaughtError + A).

Definition ret {A : Type} (a : A) : Effect A := fun t => (t, inr a).

Definition throw {A : Type} (e : CaughtError) : Effect A :=
  fun t => (t, inl e).

Definition bind {A B : Type} (m : Effect A) (k : A -> Effect B) : Effect B :=
  fun t =>
    match m t with
    | (t', inl e) => (t', inl e)
    | (t', inr a) => k a t'
    end.

(** [try { m } catch (error) { handler }] *)
Definition try_catch {A : Type} (m : Effect A)
    (handler : CaughtError -> Effect A) : Effect A :=
  fun t =>
    match m t with
    | (t', inl e) => handler e t'
    | (t', inr a) => (t', inr a)
    end.

Declare Scope effect_scope.
Delimit Scope effect_scope with effect.
Notation "x <- m ;; k" := (bind m (fun x => k))
  (at level 61, m at next level, right associativity) : effect_scope.
Notation "m ;;; k" := (bind m (fun _ => k))
  (at level 61, right associativity) : effect_scope.

(** [x || d] on an optional string: the default replaces a missing and an
    empty string. *)
Definition or_default (x : option string) (d : string) : string :=
  match x with
  | Some s => if String.eqb s "" then d else s
  | None => d
  end.

(** [{...vulnerability, scanId: id}] *)
Definition with_scanId (v : InsertVulnerability) (id : Z) : InsertVulnerability :=
  mkVulnerability id (name v) (description v) (url v) (severity v)
    (category v) (details v) (status v).

Section Controller.
Context {PF : Platform} {BE : Backend}.

(** [await storage.<call>] for a call whose value is not used. *)
Definition await_storage (c : StorageCall) : Effect unit :=
  fun t =>
    (t ++ [c],
     match storage_throws t c with
     | Some e => inl e
     | None => inr tt
     end).

(** [await storage.getCustomRulesByUserId(userId)] *)
Definition getCustomRulesByUserId (userId : Z) : Effect (list CustomRule) :=
  fun t =>
    (t ++ [GetCustomRulesByUserId userId],
     match storage_throws t (GetCustomRulesByUserId userId) with
     | Some e => inl e
     | None => inr (rules_of_user t userId)
     end).

(** [new Date()], the [k]-th read since the last storage call. *)
Definition new_Date (k : nat) : Effect Z := fun t => (t, inr (clock t k)).

(** [await runScan(options)]: the constructor's error is thrown on. *)
Definition await_runScan (o : ScanOptions) : Effect ScanResult :=
  match runScan o with
  | inl msg => throw (mkCaught (Some msg) None (Some (Error_stack msg)))
  | inr r => ret r
  end.

(** [for (const vulnerability of vs) await storage.createVulnerability(...)] *)
Fixpoint storeVulnerabilities (vs : list InsertVulnerability) (id : Z)
    : Effect unit :=
  match vs with
  | [] => ret tt
  | vulnerability :: rest =>
      (await_storage (CreateVulnerability (with_scanId vulnerability id)) ;;;
       storeVulnerabilities rest id)%effect
  end.

(** The options [doScan] hands to [runScan]. *)
Definition scanOptions (scanDataObj : ScanData) (rules : list CustomRule)
    : ScanOptions :=
  mkOptions (sd_url scanDataObj) (sd_scanLevel scanDataObj)
    (Z.min (sd_crawlLimit scanDataObj) 5)
    (sd_useAuthentication scanDataObj) (sd_includeCustomRules scanDataObj)
    (Some rules).

(** [(t.getTime() - startTimeObj.getTime()) / 1000] *)
Definition seconds_since (startTimeObj t : Z) : Q :=
  Qmake (t - startTimeObj) 1000.

(** The [try] block of [doScan]. *)
Definition doScan_try (scanObj_id : Z) (scanDataObj : ScanData)
    (userObj_id startTimeObj : Z) : Effect unit :=
  (await_storage
     (UpdateScan scanObj_id (mkUpdate "running" (Some startTimeObj) None None)) ;;;
   rules <- (if sd_includeCustomRules scanDataObj
             then getCustomRulesByUserId userObj_id
             else ret []) ;;
   scanResult <- await_runScan (scanOptions scanDataObj rules) ;;
   storeVulnerabilities (vulnerabilities scanResult) scanObj_id ;;;
   t0 <- new_Date 0 ;;
   t1 <- new_Date 1 ;;
   t2 <- new_Date 2 ;;
   await_storage
     (UpdateScan scanObj_id
        (mkUpdate "completed" None (Some t1)
           (Some (ResultCompleted
              (mkCompleted (summary scanResult) (scannedUrls scanResult)
                 (sd_scanLevel scanDataObj)
                 (seconds_since startTimeObj t0)
                 (Z.of_nat (length (scannedUrls scanResult)))
                 (Z.of_nat (length (vulnerabilities scanResult)))
                 (toISOString t2)))))) ;;;
   await_storage
     (CreateSecurityEvent
        (mkEvent userObj_id "scan_completed"
           (String.append "Scan completed for " (sd_url scanDataObj))
           (Some (CompletedMetadata scanObj_id (summary scanResult))))))%effect.

(** The [catch] block of [doScan]. *)
Definition doScan_catch (scanObj_id : Z) (scanDataObj : ScanData)
    (userObj_id startTimeObj : Z) (error : CaughtError) : Effect unit :=
  let errorMessage := match err_message error with
                      | Some m => m
                      | None => "Unknown error occurred"
                      end in
  (t0 <- new_Date 0 ;;
   t1 <- new_Date 1 ;;
   t2 <- new_Date 2 ;;
   await_storage
     (UpdateScan scanObj_id
        (mkUpdate "failed" None (Some t1)
           (Some (ResultFailed
              (mkFailed errorMessage (sd_scanLevel scanDataObj)
                 (seconds_since startTimeObj t0) (sd_url scanDataObj)
                 (toISOString t2)
                 (or_default (err_code error) "UNKNOWN_ERROR")
                 (or_default (err_stack error)
                    "No stack trace available")))))) ;;;
   await_storage
     (CreateSecurityEvent
        (mkEvent userObj_id "scan_failed"
           (String.append "Scan failed for "
              (String.append (sd_url scanDataObj)
                 (String.append ": " errorMessage)))
           (Some (FailedMetadata scanObj_id errorMessage)))))%effect.

(** [doScan(scanObj, scanDataObj, userObj, startTimeObj)], with the
    identifiers of the scan and of the user. *)
Definition doScan (scanObj_id : Z) (scanDataObj : ScanData)
    (userObj_id startTimeObj : Z) : Effect unit :=
  try_catch (doScan_try scanObj_id scanDataObj userObj_id startTimeObj)
            (doScan_catch scanObj_id scanDataObj userObj_id startTimeObj).

(** [await storage.<query>], resolving to [value] of the calls made so
    far. *)
Definition await_query {A : Type} (c : StorageCall) (value : Trace -> A)
    : Effect A :=
  fun t =>
    (t ++ [c],
     match storage_throws t c with
     | Some e => inl e
     | None => inr (value t)
     end).

Definition respond (code : Z) (body : ResponseBody) : Effect HttpResponse :=
  ret (mkResponse code body).

(** The [catch] of every handler. *)
Definition internal_error (e : CaughtError) : Effect HttpResponse :=
  respond 500 (Message "Internal server error").

(** The checks [getScan], [getScanVulnerabilities] and [deleteScan] share:
    authentication, the identifier, the scan's existence, its owner; then
    [action] on the identifier and the scan. *)
Definition with_owned_scan (req : Request)
    (action : Z -> Scan -> Effect HttpResponse) : Effect HttpResponse :=
  if negb (isAuthenticated req) then respond 401 (Message "Unauthorized")
  else
    match params_id req with
    | None => respond 400 (Message "Invalid scan ID")
    | Some scanId =>
        (scan <- await_query (GetScan scanId)
                   (fun t => scan_of_id t scanId) ;;
         match scan with
         | None => respond 404 (Message "Scan not found")
         | Some scan =>
             if negb (scan_userId scan =? user_id (user req))
             then respond 403 (Message "Unauthorized access to scan")
             else action scanId scan
         end)%effect
    end.

(** [scanController.getScan] *)
Definition getScan (req : Request) : Effect HttpResponse :=
  try_catch
    (with_owned_scan req (fun _ scan => respond 200 (ScanBody scan)))
    internal_error.

(** [scanController.getScanVulnerabilities] *)
Definition getScanVulnerabilities (req : Request) : Effect HttpResponse :=
  try_catch
    (with_owned_scan req (fun scanId _ =>
       (rows <- await_query (GetVulnerabilitiesByScanId scanId)
                  (fun t => rows_of_scan t scanId) ;;
        respond 200 (VulnerabilitiesBody rows))%effect))
    internal_error.

(** [scanController.deleteScan] *)
Definition deleteScan (req : Request) : Effect HttpResponse :=
  try_catch
    (with_owned_scan req (fun scanId scan =>
       (await_storage (DeleteScan scanId) ;;;
        await_storage
          (CreateSecurityEvent
             (mkEvent (user_id (user req)) "scan_deleted"
                (String.append "Scan deleted for " (scan_url scan))
                (Some (DeletedMetadata scanId)))) ;;;
        respond 200 (Message "Scan deleted successfully"))%effect))
    internal_error.

(** [scanController.deleteAllScans] *)
Definition deleteAllScans (req : Request) : Effect HttpResponse :=
  try_catch
    (if negb (isAuthenticated req) then respond 401 (Message "Unauthorized")
     else
       (await_storage (DeleteAllScansByUserId (user_id (user req))) ;;;
        await_storage
          (CreateSecurityEvent
             (mkEvent (user_id (user req)) "all_scans_deleted"
                (String.append "All scans deleted for user "
                   (username (user req)))
                None)) ;;;
        respond 200 (Message "All scans deleted successfully"))%effect)
    internal_error.

(** [scanController.getUserScans] *)
Definition getUserScans (req : Request) : Effect HttpResponse :=
  try_catch
    (if negb (isAuthenticated req) then respond 401 (Message "Unauthorized")
     else
       (scans <- await_query (GetScansByUserId (user_id (user req)))
                   (fun t => scans_of_user t (user_id (user req))) ;;
        respond 200 (ScansBody scans))%effect)
    internal_error.

End Controller.

(** Scan 7 of user 1. *)
Definition demoScan : Scan :=
  mkScan 7 1 "http://example.com/" "standard" 50 false false "pending"
    None None None.

(** A storage that never throws, holding scan 7 of user 1 and the example
    rules for every user, with a clock that stands at the epoch. *)
Definition reliableBackend : Backend := {|
  storage_throws := fun _ _ => None;
  rules_of_user := fun _ _ => demoRules;
  scan_of_id := fun _ id => if id =? 7 then Some demoScan else None;
  scans_of_user := fun _ uid => if uid =? 1 then [demoScan] else [];
  rows_of_scan := fun _ _ => [];
  clock := fun _ _ => 0;
  toISOString := fun _ => "1970-01-01T00:00:00.000Z";
  Error_stack := fun msg => String.append "Error: " msg
|}.

(** The same storage, except that logging a completed scan throws. *)
Definition lossyBackend : Backend := {|
  storage_throws := fun _ c =>
    match c with
    | CreateSecurityEvent ev =>
        if String.eqb (ev_type ev) "scan_completed"
        then Some (mkCaught (Some "connection lost") None None)
        else None
    | _ => None
    end;
  rules_of_user := fun _ _ => demoRules;
  scan_of_id := fun _ id => if id =? 7 then Some demoScan else None;
  scans_of_user := fun _ uid => if uid =? 1 then [demoScan] else [];
  rows_of_scan := fun _ _ => [];
  clock := fun _ _ => 0;
  toISOString := fun _ => "1970-01-01T00:00:00.000Z";
  Error_stack := fun msg => String.append "Error: " msg
|}.

(** A storage on which every call throws. *)
Definition brokenBackend : Backend := {|
  storage_throws := fun _ _ => Some (mkCaught (Some "connection lost") None None);
  rules_of_user := fun _ _ => [];
  scan_of_id := fun _ _ => None;
  scans_of_user := fun _ _ => [];
  rows_of_scan := fun _ _ => [];
  clock := fun _ _ => 0;
  toISOString := fun _ => "1970-01-01T00:00:00.000Z";
  Error_stack := fun msg => String.append "Error: " msg
|}.

Definition demoScanData (incl : bool) : ScanData :=
  mkScanData "http://example.com/" "standard" 50 false incl.

(** ** The scan form and the score shown to the user *)

(** The value of a decimal digit. *)
Definition digit_value (c : Ascii.ascii) : option Z :=
  let n := nat_of_ascii c in
  if (48 <=? n)%nat && (n <=? 57)%nat then Some (Z.of_nat (n - 48)) else None.

Fixpoint parse_digits (s : string) (acc : option Z) : option Z :=
  match s with
  | EmptyString => acc
  | String c s' =>
      match digit_value c with
      | Some d =>
          parse_digits s'
            (Some (10 * match acc with Some a => a | None => 0 end + d))
      | None => acc
      end
  end.

(** [parseInt(s)] on a string that does not begin with white space, a
    sign or [0x]: the leading decimal digits, [None] for [NaN]. *)
Definition parseInt (s : string) : option Z := parse_digits s None.

(** The values the form's [crawlLimit] select offers ([scanFormSchema]). *)
Definition crawlLimitChoices : list string := ["10"; "50"; "100"; "unlimited"].

(** [values.crawlLimit === "unlimited" ? 9999 : parseInt(values.crawlLimit)]
    in [ScanForm]'s [mutationFn]. *)
Definition parsedCrawlLimit (crawlLimit : string) : option Z :=
  if String.eqb crawlLimit "unlimited" then Some 9999 else parseInt crawlLimit.

(** [Math.round]: the nearest integer, halves upwards. *)
Definition Math_round (x : Q) : Z := Qfloor (Qplus x (Qmake 1 2)).

(** The client's [ScanResult]; a field is [None] when it is undefined or
    null in the JSON received. *)
Record ClientScanResult : Type := mkClientResult {
  cr_securityScore : option Q;
  cr_highSeverity : option Z;
  cr_mediumSeverity : option Z;
  cr_lowSeverity : option Z
}.

(** The client's [Scan], of which the score functions read [result]. *)
Record ClientScan : Type := mkClientScan {
  cs_result : option ClientScanResult
}.

(** [scan?.result?.securityScore] *)
Definition stored_score (scan : option ClientScan) : option Q :=
  match scan with
  | Some sc =>
      match cs_result sc with
      | Some result => cr_securityScore result
      | None => None
      end
  | None => None
  end.

(** [x || 0] on an optional number. *)
Definition or_zero (x : option Z) : Z :=
  match x with Some n => n | None => 0 end.

(** [vulnerabilities.filter(v => v.severity === s).length] on the rows
    the client received. *)
Definition row_count (s : string) (rows : list Vulnerability) : Z :=
  Z.of_nat (length (filter (fun v => String.eqb (severity (row_fields v)) s)
                      rows)).

(** [calculateSecurityScore] of [scan-detail-page.tsx]. *)
Definition detail_calculateSecurityScore
    (vulnerabilities : option (list Vulnerability))
    (scan : option ClientScan) : Z :=
  match vulnerabilities with
  | None => 0
  | Some vs =>
      match stored_score scan with
      | Some score => Math_round score
      | None =>
          let highWeight := 10 in
          let mediumWeight := 5 in
          let lowWeight := 2 in
          let highSeverity := row_count "high" vs in
          let mediumSeverity := row_count "medium" vs in
          let lowSeverity := row_count "low" vs in
          let totalVulnWeight :=
            highSeverity * highWeight + mediumSeverity * mediumWeight
            + lowSeverity * lowWeight in
          if totalVulnWeight =? 0 then 100
          else
            let maxPenalty := 100 in
            let score := Z.max 0 (100 - Z.min maxPenalty totalVulnWeight) in
            Math_round (inject_Z score)
      end
  end.

(** [calculateSecurityScore] of [scan-report-pdf.tsx]. *)
Definition pdf_calculateSecurityScore (scan : option ClientScan) : Z :=
  match scan with
  | None => 0
  | Some sc =>
      match cs_result sc with
      | None => 0
      | Some result =>
          match cr_securityScore result with
          | Some score => Math_round score
          | None =>
              let highWeight := 5 in
              let mediumWeight := 3 in
              let lowWeight := 1 in
              let highSeverity := or_zero (cr_highSeverity result) in
              let mediumSeverity := or_zero (cr_mediumSeverity result) in
              let lowSeverity := or_zero (cr_lowSeverity result) in
              let totalVulnWeight :=
                highSeverity * highWeight + mediumSeverity * mediumWeight
                + lowSeverity * lowWeight in
              if totalVulnWeight =? 0 then 100
              else
                let maxPenalty := 100 in
                let score :=
                  Z.max 0 (100 - Z.min maxPenalty totalVulnWeight) in
                Math_round (inject_Z score)
          end
      end
  end.

Lemma well_founded_lexprod :
  well_founded (Subterm.lexprod nat nat lt lt).
Proof. apply Subterm.wf_lexprod; apply Wf_nat.lt_wf. Qed.

(** ** Reasoning about the loop *)

Section LoopFacts.
Context {PF : Platform}.

(** The loop is the fixed point of its body under its condition. *)
Lemma run_loop_while st :
  run_loop st = if loop_cond st then run_loop (loop_body st) else st.
Proof.
  funelim (run_loop st).
  all: match goal with E : loop_cond _ = _ |- _ => rewrite E end;
    reflexivity.
Qed.

(** Invariant rule for the [while] loop: an invariant of the body holds on
    exit, where the condition is false. *)
Lemma run_loop_invariant (I : LoopState -> Prop) :
  (forall st, I st -> loop_cond st = true -> I (loop_body st)) ->
  forall st, I st -> I (run_loop st) /\ loop_cond (run_loop st) = false.
Proof.
  intros Hstep st.
  remember (loop_measure st) as m eqn:Em. revert st Em.
  induction (well_founded_lexprod m) as [m _ IH].
  intros st -> Hst. rewrite run_loop_while.
  destruct (loop_cond st) eqn:Ec.
  - apply (IH (loop_measure (loop_body st))); auto.
    apply loop_body_decreases. exact Ec.
  - split; assumption.
Qed.

(** Two runs related by a map of states that commutes with the body. *)
Lemma run_loop_commute (I : LoopState -> Prop) (f : LoopState -> LoopState) :
  (forall st, I st -> loop_cond st = true -> I (loop_body st)) ->
  (forall st, I st -> loop_cond (f st) = loop_cond st) ->
  (forall st, I st -> loop_body (f st) = f (loop_body st)) ->
  forall st, I st -> run_loop (f st) = f (run_loop st).
Proof.
  intros Hinv Hcond Hbody st.
  remember (loop_measure st) as m eqn:Em. revert st Em.
  induction (well_founded_lexprod m) as [m _ IH].
  intros st -> Hst.
  rewrite (run_loop_while st), (run_loop_while (f st)), (Hcond st Hst).
  destruct (loop_cond st) eqn:Ec; [|reflexivity].
  rewrite (Hbody st Hst).
  apply (IH (loop_measure (loop_body st))); auto.
  apply loop_body_decreases. exact Ec.
Qed.

(** The fields the loop never assigns. *)
Definition same_config (sc sc' : Scanner) : Prop :=
  maxPages sc' = maxPages sc /\ baseUrl sc' = baseUrl sc
  /\ scanLevel sc' = scanLevel sc /\ customRules sc' = customRules sc
  /\ options sc' = options sc.

Lemma loop_body_config sc vs :
  same_config sc (fst (loop_body (sc, vs))).
Proof.
  unfold loop_body, same_config.
  destruct (queue sc) as [|u rest]; [simpl; tauto|].
  cbn [set_queue visited].
  destruct (includes (visited sc) u); [simpl; tauto|].
  match goal with |- context [scanPage ?s vs u] =>
    pose proof (scanPage_frame s vs u) as F end.
  simpl in F. simpl. tauto.
Qed.

End LoopFacts.

(** ** The summary aggregator *)

Section SummaryFacts.

Lemma severity_count_occurrences s F :
  severity_count s F = Z.of_nat (occurrences s F).
Proof.
  unfold severity_count. f_equal.
  induction F as [|v F IH]; simpl; [reflexivity|].
  destruct (String.eqb_spec (severity v) s) as [E|E];
    destruct (string_dec (severity v) s); try contradiction;
    simpl; congruence.
Qed.

Lemma occurrences_app s F1 F2 :
  occurrences s (F1 ++ F2) = (occurrences s F1 + occurrences s F2)%nat.
Proof.
  induction F1 as [|v F1 IH]; simpl; [reflexivity|].
  destruct (string_dec (severity v) s); simpl; lia.
Qed.

Lemma occurrences_Permutation s F F' :
  Permutation F F' -> occurrences s F = occurrences s F'.
Proof.
  induction 1 as [|v F F' _ IH|v w F|F F' F'' _ IH1 _ IH2]; simpl.
  - reflexivity.
  - rewrite IH. reflexivity.
  - destruct (string_dec (severity v) s), (string_dec (severity w) s);
      reflexivity.
  - congruence.
Qed.

Lemma buckets_bounded F :
  (occurrences "high" F + occurrences "medium" F + occurrences "low" F
   <= length F)%nat.
Proof.
  induction F as [|v F IH]; simpl; [lia|].
  destruct (string_dec (severity v) "high") as [E|_];
    [rewrite E; simpl; lia|].
  destruct (string_dec (severity v) "medium") as [E|_];
    [rewrite E; simpl; lia|].
  destruct (string_dec (severity v) "low"); lia.
Qed.

Lemma occurrences_unbucketed s v :
  ~ bucketed v -> In s ["high"; "medium"; "low"] ->
  occurrences s [v] = 0%nat.
Proof.
  intros Hv Hs. simpl.
  destruct (string_dec (severity v) s) as [E|]; [|reflexivity].
  exfalso. apply Hv. unfold bucketed. simpl in Hs.
  intuition congruence.
Qed.

(** C3.  The summary has the list length as total, the number of findings
    of severity exactly high, medium and low as its three counts, the
    score clamp(100 - 10 high - 5 medium - 2 low, 0, 100), and is the same
    for every permutation of the findings. *)
Theorem calculateSummary_spec (F F' : list InsertVulnerability)
    (HP : Permutation F F') :
  let S := calculateSummary F in
  let high := Z.of_nat (occurrences "high" F) in
  let medium := Z.of_nat (occurrences "medium" F) in
  let low := Z.of_nat (occurrences "low" F) in
  totalVulnerabilities S = Z.of_nat (length F)
  /\ highSeverity S = high
  /\ mediumSeverity S = medium
  /\ lowSeverity S = low
  /\ securityScore S = clamp (100 - 10 * high - 5 * medium - 2 * low) 0 100
  /\ calculateSummary F' = S.
Proof.
  unfold calculateSummary; cbn zeta; cbn [totalVulnerabilities highSeverity
    mediumSeverity lowSeverity securityScore].
  rewrite !severity_count_occurrences.
  repeat split.
  - unfold clamp.
    destruct (Z.ltb_spec (100 - 10 * Z.of_nat (occurrences "high" F)
                          - 5 * Z.of_nat (occurrences "medium" F)
                          - 2 * Z.of_nat (occurrences "low" F)) 0);
      [lia|].
    destruct (Z.ltb_spec 100 (100 - 10 * Z.of_nat (occurrences "high" F)
                          - 5 * Z.of_nat (occurrences "medium" F)
                          - 2 * Z.of_nat (occurrences "low" F))); lia.
  - rewrite <- !(occurrences_Permutation _ _ _ HP).
    rewrite <- (Permutation_length HP). reflexivity.
Qed.

(** C10.  The three severity counts add up to at most the total; a finding
    whose severity is none of high, medium, low makes the inequality
    strict: it adds one to the total, nothing to any count, and leaves
    the score as it was. *)
Theorem severity_buckets_le_total (F : list InsertVulnerability) :
  let S := calculateSummary F in
  highSeverity S + mediumSeverity S + lowSeverity S <= totalVulnerabilities S
  /\ forall F1 v F2, F = F1 ++ v :: F2 -> ~ bucketed v ->
       let S0 := calculateSummary (F1 ++ F2) in
       highSeverity S + mediumSeverity S + lowSeverity S
         < totalVulnerabilities S
       /\ totalVulnerabilities S = totalVulnerabilities S0 + 1
       /\ highSeverity S = highSeverity S0
       /\ mediumSeverity S = mediumSeverity S0
       /\ lowSeverity S = lowSeverity S0
       /\ securityScore S = securityScore S0.
Proof.
  cbn zeta. split.
  - unfold calculateSummary; cbn [totalVulnerabilities highSeverity
      mediumSeverity lowSeverity].
    rewrite !severity_count_occurrences.
    pose proof (buckets_bounded F). lia.
  - intros F1 v F2 -> Hv.
    assert (Hocc : forall s, In s ["high"; "medium"; "low"] ->
              occurrences s (F1 ++ v :: F2) = occurrences s (F1 ++ F2)).
    { intros s Hs. change (v :: F2) with ([v] ++ F2).
      rewrite !occurrences_app, (occurrences_unbucketed s v Hv Hs). lia. }
    unfold calculateSummary; cbn [totalVulnerabilities highSeverity
      mediumSeverity lowSeverity securityScore].
    rewrite !severity_count_occurrences.
    rewrite !Hocc by (simpl; tauto).
    pose proof (buckets_bounded (F1 ++ F2)).
    rewrite !length_app in *. simpl. 
    repeat split; try reflexivity; lia.
Qed.

End SummaryFacts.

(** ** The custom rule evaluator *)

Section RuleFacts.
Context {PF : Platform}.

Lemma checkCustomRules_fold u content rules acc :
  fold_left (checkCustomRules_step u content) rules acc
  = acc ++ map (ruleFinding u)
             (filter (fun r => rule_enabled r && matches r content) rules).
Proof.
  revert acc. induction rules as [|r rules IH]; intros acc; simpl.
  - rewrite app_nil_r. reflexivity.
  - rewrite IH. unfold checkCustomRules_step, matches.
    destruct (rule_enabled r); simpl; [|reflexivity].
    destruct (RegExp_test (rule_pattern r) content) as [[|]|]; simpl;
      [rewrite <- app_assoc|..]; reflexivity.
Qed.

(** The evaluator reports the enabled, matching rules, in order. *)
Lemma checkCustomRules_filter rules u content :
  checkCustomRules rules u content
  = map (ruleFinding u)
        (filter (fun r => rule_enabled r && matches r content) rules).
Proof. unfold checkCustomRules. apply checkCustomRules_fold. Qed.

Lemma from_rule_ruleFinding id u r :
  from_rule id (ruleFinding u r) = (rule_id r =? id).
Proof.
  unfold from_rule, ruleFinding. simpl.
  rewrite andb_true_r. reflexivity.
Qed.

Lemma filter_from_rule_absent id u rules :
  ~ In id (map rule_id rules) ->
  filter (from_rule id) (map (ruleFinding u) rules) = [].
Proof.
  induction rules as [|r rules IH]; simpl; intros Hn; [reflexivity|].
  rewrite from_rule_ruleFinding.
  destruct (Z.eqb_spec (rule_id r) id) as [E|_]; [tauto|].
  apply IH. tauto.
Qed.

Lemma filter_id_subset (f : CustomRule -> bool) id rules :
  ~ In id (map rule_id rules) -> ~ In id (map rule_id (filter f rules)).
Proof.
  intros Hn Hin. apply Hn. apply in_map_iff in Hin.
  destruct Hin as (r & E & Hr). apply filter_In in Hr.
  apply in_map_iff. exists r. tauto.
Qed.

(** With distinct identifiers, the findings of rule [r] on one page. *)
Lemma rule_findings_on_page rules r u content :
  NoDup (map rule_id rules) -> In r rules ->
  filter (from_rule (rule_id r)) (checkCustomRules rules u content)
  = if rule_enabled r && matches r content then [ruleFinding u r] else [].
Proof.
  rewrite checkCustomRules_filter.
  induction rules as [|r' rules IH]; simpl; intros Hnd Hin; [tauto|].
  inversion Hnd as [|? ? Hnotin Hnd']; subst.
  destruct Hin as [->|Hin].
  - destruct (rule_enabled r && matches r content); simpl.
    + rewrite from_rule_ruleFinding, Z.eqb_refl.
      rewrite filter_from_rule_absent; [reflexivity|].
      apply filter_id_subset. exact Hnotin.
    + apply filter_from_rule_absent. apply filter_id_subset. exact Hnotin.
  - assert (Hne : rule_id r' <> rule_id r).
    { intros E. apply Hnotin. rewrite E. apply in_map. exact Hin. }
    destruct (rule_enabled r' && matches r' content); simpl.
    + rewrite from_rule_ruleFinding.
      destruct (Z.eqb_spec (rule_id r') (rule_id r)); [contradiction|].
      apply IH; assumption.
    + apply IH; assumption.
Qed.

(** C6.  The evaluator reports one finding per enabled rule whose pattern
    matches the page, with the rule's name, severity and category and
    details holding the rule identifier and the match flag; over several
    pages an enabled rule (identifiers being distinct) has as many
    findings as pages it matches, one for each. *)
Theorem custom_rule_one_finding_per_page
    (rules : list CustomRule) (r : CustomRule)
    (Hids : NoDup (map rule_id rules)) (Hin : In r rules)
    (Hen : rule_enabled r = true) :
  (forall u content,
      checkCustomRules rules u content
      = map (ruleFinding u)
            (filter (fun q => rule_enabled q && matches q content) rules))
  /\ (forall u content, matches r content = true ->
        exists f,
          filter (from_rule (rule_id r)) (checkCustomRules rules u content)
          = [f]
          /\ name f = rule_name r /\ severity f = rule_severity r
          /\ category f = rule_category r /\ url f = u
          /\ details f
             = [("rule", JNumber (rule_id r)); ("matched", JBool true)])
  /\ (forall pages : list (string * string),
        length (filter (from_rule (rule_id r))
                  (flat_map (fun pg => checkCustomRules rules (fst pg) (snd pg))
                     pages))
        = length (filter (fun pg => matches r (snd pg)) pages))
  /\ (forall sc u response detected,
        customRules sc = rules ->
        opt_includeCustomRules (options sc) = true ->
        axios_get u = inl response ->
        detectVulnerabilities u response (scanLevel sc) = inl detected ->
        pageFindings sc u
        = detected ++ checkCustomRules rules u (data response)).
Proof.
  split; [|split; [|split]].
  - intros u content. apply checkCustomRules_filter.
  - intros u content Hm. exists (ruleFinding u r).
    rewrite (rule_findings_on_page rules r u content Hids Hin), Hen, Hm.
    simpl. repeat split; reflexivity.
  - induction pages as [|pg pages IH]; simpl; [reflexivity|].
    rewrite filter_app, length_app, IH.
    rewrite (rule_findings_on_page rules r _ _ Hids Hin), Hen. simpl.
    destruct (matches r (snd pg)); reflexivity.
  - intros sc u response detected Hr Hi Hf Hd.
    unfold pageFindings, scanPage. rewrite Hf, Hd, Hi, Hr. cbn [snd app].
    destruct rules as [|q rules']; [contradiction|reflexivity].
Qed.

(** Dropping a rule whose pattern does not compile on [content] leaves
    the evaluator's answer on [content] as it was. *)
Lemma checkCustomRules_drop_broken l1 r l2 u content :
  RegExp_test (rule_pattern r) content = None ->
  checkCustomRules (l1 ++ r :: l2) u content
  = checkCustomRules (l1 ++ l2) u content.
Proof.
  intros Hbad. rewrite !checkCustomRules_filter, !filter_app. simpl.
  unfold matches at 2. rewrite Hbad, andb_false_r. reflexivity.
Qed.

End RuleFacts.

Section BrokenRule.
Context {PF : Platform}.
Variables (l1 l2 : list CustomRule) (r : CustomRule).
Hypothesis Hbad : forall content, RegExp_test (rule_pattern r) content = None.

Let repaired (st : LoopState) : LoopState :=
  (with_rules (l1 ++ l2) (fst st), snd st).

Lemma extractLinks_with_rules rules sc pageUrl html :
  extractLinks (with_rules rules sc) pageUrl html
  = with_rules rules (extractLinks sc pageUrl html).
Proof.
  unfold extractLinks.
  destruct (cheerio_hrefs html) as [links|]; [|reflexivity].
  revert sc. induction links as [|l links IH]; intros sc; simpl;
    [reflexivity|].
  rewrite <- IH. f_equal.
  unfold extractLinks_step.
  destruct (skipped_href l); [reflexivity|].
  destruct (URL_href l pageUrl); [|reflexivity].
  cbn [with_rules baseUrl visited queue].
  match goal with |- context [if ?c then _ else _] => destruct c end;
    reflexivity.
Qed.

Lemma scanPage_repaired sc vs u :
  customRules sc = l1 ++ r :: l2 ->
  scanPage (with_rules (l1 ++ l2) sc) vs u = repaired (scanPage sc vs u).
Proof.
  intros Hr. unfold scanPage, repaired.
  destruct (axios_get u) as [resp|e]; [|reflexivity].
  cbn [with_rules scanLevel options customRules opt_includeCustomRules
       options_with_rules].
  destruct (detectVulnerabilities u resp (scanLevel sc)) as [d|e];
    [|reflexivity].
  cbn [fst snd]. rewrite Hr.
  rewrite (checkCustomRules_drop_broken l1 r l2 u (data resp) (Hbad _)).
  f_equal.
  - destruct (negb (String.eqb (scanLevel sc) "quick")); [|reflexivity].
    apply extractLinks_with_rules.
  - destruct (opt_includeCustomRules (options sc)); [|reflexivity].
    destruct (l1 ++ l2) as [|a l] eqn:E.
    + simpl. rewrite length_app. simpl.
      destruct (0 <? Z.of_nat (length l1 + S (length l2))%nat);
        [rewrite app_nil_r|]; reflexivity.
    + replace (0 <? Z.of_nat (length (a :: l))) with true
        by (symmetry; apply Z.ltb_lt; simpl length; lia).
      replace (0 <? Z.of_nat (length (l1 ++ r :: l2))) with true
        by (symmetry; apply Z.ltb_lt; rewrite length_app; simpl length; lia).
      reflexivity.
Qed.

Lemma loop_body_repaired st :
  customRules (fst st) = l1 ++ r :: l2 ->
  loop_body (repaired st) = repaired (loop_body st).
Proof.
  destruct st as [[o v q m b rs l p] vs]. unfold repaired. cbn [fst snd].
  intros Hr. unfold loop_body.
  cbn [with_rules queue visited set_queue set_visited options maxPages
       baseUrl customRules scanLevel pushed].
  destruct q as [|u rest]; [reflexivity|].
  destruct (includes v u); [reflexivity|].
  match goal with |- _ = (with_rules _ (fst (scanPage ?s vs u)), _) =>
    exact (scanPage_repaired s vs u Hr) end.
Qed.

Lemma run_state_repaired sc :
  customRules sc = l1 ++ r :: l2 ->
  run_state (with_rules (l1 ++ l2) sc) = repaired (run_state sc).
Proof.
  intros Hr. unfold run_state. cbn [with_rules maxPages].
  set (sc0 := if maxPages sc <=? 0 then set_maxPages sc 1 else sc).
  assert (H0 : customRules sc0 = l1 ++ r :: l2)
    by (unfold sc0; destruct (maxPages sc <=? 0); exact Hr).
  replace (if maxPages sc <=? 0
           then set_maxPages (with_rules (l1 ++ l2) sc) 1
           else with_rules (l1 ++ l2) sc)
    with (with_rules (l1 ++ l2) sc0)
    by (unfold sc0; destruct (maxPages sc <=? 0); reflexivity).
  change (with_rules (l1 ++ l2) sc0, @nil InsertVulnerability)
    with (repaired (sc0, [])).
  apply (run_loop_commute
           (fun st => customRules (fst st) = l1 ++ r :: l2)).
  - intros [s vs] Hs _.
    pose proof (loop_body_config s vs) as (_ & _ & _ & Hc & _).
    cbn [fst] in *. congruence.
  - intros st _. reflexivity.
  - intros st Hs. apply loop_body_repaired. exact Hs.
  - exact H0.
Qed.

(** C8.  A rule whose pattern does not compile yields no finding, the
    other rules are evaluated on the page as if it were absent, and the
    scan returns what it returns without the rule. *)
Theorem broken_rule_is_skipped :
  (forall u content,
      checkCustomRules (l1 ++ r :: l2) u content
      = checkCustomRules (l1 ++ l2) u content)
  /\ (forall u content, checkCustomRules [r] u content = [])
  /\ (forall o, opt_customRules o = Some (l1 ++ r :: l2) ->
        runScan o = runScan (options_with_rules (l1 ++ l2) o)).
Proof.
  split; [|split].
  - intros u content. apply checkCustomRules_drop_broken. apply Hbad.
  - intros u content.
    exact (checkCustomRules_drop_broken [] r [] u content (Hbad _)).
  - intros o Ho. unfold runScan, Scanner_new.
    cbn [options_with_rules opt_url opt_customRules opt_scanLevel
         opt_crawlLimit].
    rewrite Ho.
    destruct (URL_parse (opt_url o)) as [p|]; [|reflexivity].
    f_equal. unfold run.
    match goal with |- _ = (let (_, _) := run_state ?s in _) =>
      change s with (with_rules (l1 ++ l2)
        (mkScanner o [] [opt_url o] (opt_crawlLimit o)
           (String.append (protocol p) (String.append "//" (host p)))
           (l1 ++ r :: l2) (opt_scanLevel o) [opt_url o])) end.
    rewrite run_state_repaired by reflexivity.
    unfold repaired.
    destruct (run_state _) as [sc' vs]. reflexivity.
Qed.

End BrokenRule.

(** ** The crawl coordinator *)

Section ScanFacts.
Context {PF : Platform}.

Lemma includes_In l u : includes l u = true <-> In u l.
Proof.
  unfold includes. rewrite existsb_exists. split.
  - intros (x & Hx & E). apply String.eqb_eq in E. congruence.
  - intros H. exists u. split; [exact H|apply String.eqb_refl].
Qed.

Lemma includes_not_In l u : includes l u = false <-> ~ In u l.
Proof.
  rewrite <- includes_In. destruct (includes l u); split; congruence.
Qed.

(** What one turn of the link loop does to the frontier: nothing, or one
    push of a URL that is neither visited nor queued and starts with the
    base URL. *)
Lemma extractLinks_step_cases pageUrl sc link :
  let sc' := extractLinks_step pageUrl sc link in
  sc' = sc
  \/ exists a, sc' = queue_push sc a
       /\ ~ In a (visited sc) /\ ~ In a (queue sc)
       /\ startsWith a (baseUrl sc) = true.
Proof.
  unfold extractLinks_step.
  destruct (skipped_href link); [left; reflexivity|].
  destruct (URL_href link pageUrl) as [a|]; [|left; reflexivity].
  destruct (startsWith a (baseUrl sc)) eqn:Ep; [|left; reflexivity].
  destruct (includes (visited sc) a) eqn:Ev; [left; reflexivity|].
  destruct (includes (queue sc) a) eqn:Eq; [left; reflexivity|].
  right. exists a. simpl.
  apply includes_not_In in Ev, Eq. tauto.
Qed.

(** Every URL ever pushed is visited or queued, and none was pushed
    twice. *)
Definition dedup_inv (sc : Scanner) : Prop :=
  NoDup (pushed sc) /\ Permutation (pushed sc) (visited sc ++ queue sc).

Lemma queue_push_dedup sc a :
  dedup_inv sc -> ~ In a (visited sc) -> ~ In a (queue sc) ->
  dedup_inv (queue_push sc a).
Proof.
  intros [Hnd Hp] Hv Hq. unfold dedup_inv. simpl.
  assert (Hperm : Permutation (pushed sc ++ [a])
                    (visited sc ++ queue sc ++ [a])).
  { rewrite app_assoc. apply Permutation_app_tail. exact Hp. }
  split; [|exact Hperm].
  apply (Permutation_NoDup (l := a :: pushed sc)).
  - apply Permutation_cons_append.
  - constructor; [|exact Hnd].
    intros Hin. apply (Permutation_in _ Hp) in Hin.
    apply in_app_or in Hin. tauto.
Qed.

Lemma extractLinks_dedup sc pageUrl html :
  dedup_inv sc -> dedup_inv (extractLinks sc pageUrl html).
Proof.
  unfold extractLinks.
  destruct (cheerio_hrefs html) as [links|]; [|tauto].
  revert sc. induction links as [|l links IH]; intros sc H; simpl;
    [exact H|].
  apply IH.
  destruct (extractLinks_step_cases pageUrl sc l) as [->|(a & -> & Hv & Hq & _)];
    [exact H|].
  apply queue_push_dedup; assumption.
Qed.

Lemma scanPage_dedup sc vs u :
  dedup_inv sc -> dedup_inv (fst (scanPage sc vs u)).
Proof.
  intros H. unfold scanPage.
  destruct (axios_get u) as [resp|e]; [|exact H].
  destruct (detectVulnerabilities u resp (scanLevel sc)); [|exact H].
  cbn [fst].
  destruct (negb (String.eqb (scanLevel sc) "quick")); [|exact H].
  apply extractLinks_dedup. exact H.
Qed.

Lemma loop_body_dedup st :
  dedup_inv (fst st) -> dedup_inv (fst (loop_body st)).
Proof.
  destruct st as [[o v q m b rs l p] vs]. unfold loop_body.
  cbn [fst queue set_queue set_visited visited options maxPages baseUrl
       customRules scanLevel pushed].
  intros [Hnd Hp]. cbn [pushed visited queue] in *.
  destruct q as [|u rest]; [split; assumption|].
  assert (Hu : ~ In u v).
  { apply (Permutation_NoDup Hp) in Hnd.
    apply NoDup_remove_2 in Hnd. intros Hin. apply Hnd.
    apply in_or_app. left. exact Hin. }
  apply includes_not_In in Hu. rewrite Hu.
  apply scanPage_dedup. unfold dedup_inv, Set_add. simpl. rewrite Hu.
  split; [exact Hnd|].
  rewrite <- app_assoc. exact Hp.
Qed.

(** The number of visited URLs stays within the page budget. *)
Lemma loop_body_budget st :
  loop_cond st = true ->
  Z.of_nat (length (visited (fst (loop_body st)))) <= maxPages (fst st).
Proof.
  destruct st as [[o v q m b rs l p] vs]. unfold loop_cond, loop_body.
  cbn [fst queue set_queue set_visited visited options maxPages baseUrl
       customRules scanLevel pushed].
  intros H. apply andb_prop in H. destruct H as [_ H]. apply Z.ltb_lt in H.
  destruct q as [|u rest]; [simpl; lia|].
  destruct (includes v u) eqn:E; [simpl; lia|].
  match goal with |- context [scanPage ?s vs u] =>
    pose proof (scanPage_frame s vs u) as F end.
  simpl in F. destruct F as (-> & _).
  unfold Set_add. rewrite E, length_app. simpl. lia.
Qed.

(** The seed is the first URL visited. *)
Definition seed_inv (seed : string) (sc : Scanner) : Prop :=
  (visited sc = [] /\ queue sc = [seed])
  \/ hd_error (visited sc) = Some seed.

Lemma loop_body_seed seed st :
  seed_inv seed (fst st) -> seed_inv seed (fst (loop_body st)).
Proof.
  destruct st as [[o v q m b rs l p] vs]. unfold loop_body, seed_inv.
  cbn [fst queue set_queue set_visited visited options maxPages baseUrl
       customRules scanLevel pushed].
  intros [[-> ->]|H].
  - cbn [includes existsb].
    match goal with |- context [scanPage ?s vs seed] =>
      pose proof (scanPage_frame s vs seed) as F end.
    simpl in F. destruct F as (-> & _). right. reflexivity.
  - destruct q as [|u rest]; [right; exact H|].
    destruct (includes v u) eqn:E; [right; exact H|].
    match goal with |- context [scanPage ?s vs u] =>
      pose proof (scanPage_frame s vs u) as F end.
    simpl in F. destruct F as (-> & _). right.
    unfold Set_add. rewrite E.
    destruct v; [discriminate|exact H].
Qed.

(** A quick scan leaves the frontier alone. *)
Lemma scanPage_quick sc vs u :
  scanLevel sc = "quick" -> fst (scanPage sc vs u) = sc.
Proof.
  intros Hq. unfold scanPage.
  destruct (axios_get u) as [resp|e]; [|reflexivity].
  destruct (detectVulnerabilities u resp (scanLevel sc)); [|reflexivity].
  rewrite Hq. reflexivity.
Qed.

Definition quick_inv (seed : string) (sc : Scanner) : Prop :=
  scanLevel sc = "quick" /\ pushed sc = [seed]
  /\ ((visited sc = [] /\ queue sc = [seed])
      \/ (visited sc = [seed] /\ queue sc = [])).

Lemma loop_body_quick seed st :
  quick_inv seed (fst st) -> quick_inv seed (fst (loop_body st)).
Proof.
  destruct st as [[o v q m b rs l p] vs]. unfold loop_body, quick_inv.
  cbn [fst queue set_queue set_visited visited options maxPages baseUrl
       customRules scanLevel pushed].
  intros (Hl & Hp & [[-> ->]|[-> ->]]).
  - cbn [includes existsb]. rewrite scanPage_quick by exact Hl.
    simpl. tauto.
  - simpl. tauto.
Qed.

(** The findings are those of the visited pages, in the order visited. *)
Lemma scanPage_findings sc0 sc vs u :
  same_config sc0 sc ->
  snd (scanPage sc vs u) = vs ++ pageFindings sc0 u.
Proof.
  intros (_ & _ & Hl & Hr & Ho). unfold pageFindings, scanPage.
  rewrite Hl, Hr, Ho.
  destruct (axios_get u) as [resp|e]; [|reflexivity].
  destruct (detectVulnerabilities u resp (scanLevel sc0)); [|reflexivity].
  cbn [snd].
  destruct (opt_includeCustomRules (options sc0)
            && (0 <? Z.of_nat (length (customRules sc0))));
    [rewrite app_assoc|]; reflexivity.
Qed.

Definition findings_inv (sc0 : Scanner) (st : LoopState) : Prop :=
  same_config sc0 (fst st)
  /\ snd st = flat_map (pageFindings sc0) (visited (fst st)).

Lemma same_config_trans a b c :
  same_config a b -> same_config b c -> same_config a c.
Proof. unfold same_config. intuition congruence. Qed.

Lemma loop_body_findings sc0 st :
  findings_inv sc0 st -> findings_inv sc0 (loop_body st).
Proof.
  destruct st as [sc vs]. intros [Hc Hf]. cbn [fst snd] in *.
  split.
  - apply (same_config_trans _ _ _ Hc). apply loop_body_config.
  - revert Hc Hf. destruct sc as [o v q m b rs l p]. unfold loop_body.
    cbn [fst snd queue set_queue set_visited visited options maxPages
         baseUrl customRules scanLevel pushed].
    intros Hc Hf.
    destruct q as [|u rest]; [exact Hf|].
    destruct (includes v u) eqn:E; [exact Hf|].
    match goal with |- context [scanPage ?s vs u] =>
      pose proof (scanPage_frame s vs u) as F;
      rewrite (scanPage_findings sc0 s vs u) by exact Hc end.
    simpl in F. destruct F as (-> & _).
    unfold Set_add. rewrite E, flat_map_app, Hf. simpl.
    rewrite app_nil_r. reflexivity.
Qed.

Lemma Scanner_new_inr o sc :
  Scanner_new o = inr sc ->
  exists p, URL_parse (opt_url o) = Some p
    /\ sc = mkScanner o [] [opt_url o] (opt_crawlLimit o)
              (String.append (protocol p) (String.append "//" (host p)))
              (match opt_customRules o with Some rs => rs | None => [] end)
              (opt_scanLevel o) [opt_url o].
Proof.
  unfold Scanner_new. destruct (URL_parse (opt_url o)) as [p|];
    [|discriminate].
  intros E. exists p. split; [reflexivity|congruence].
Qed.

Lemma pageFindings_set_maxPages sc n u :
  pageFindings (set_maxPages sc n) u = pageFindings sc u.
Proof.
  unfold pageFindings, scanPage.
  destruct (axios_get u) as [resp|e]; [|reflexivity].
  cbn [set_maxPages scanLevel options customRules].
  destruct (detectVulnerabilities u resp (scanLevel sc)); reflexivity.
Qed.

(** What holds when the loop of [run()] exits. *)
Record exit_facts (o : ScanOptions) (sc : Scanner) (st : LoopState) : Prop := {
  exit_dedup : dedup_inv (fst st);
  exit_seed : hd_error (visited (fst st)) = Some (opt_url o);
  exit_budget :
    Z.of_nat (length (visited (fst st))) <= Z.max 1 (opt_crawlLimit o);
  exit_maxPages : maxPages (fst st) = Z.max 1 (opt_crawlLimit o);
  exit_findings : snd st = flat_map (pageFindings sc) (visited (fst st));
  exit_quick :
    opt_scanLevel o = "quick" -> quick_inv (opt_url o) (fst st);
  exit_cond : loop_cond st = false
}.

Lemma run_state_exit o sc :
  Scanner_new o = inr sc -> exit_facts o sc (run_state sc).
Proof.
  intros Hnew. destruct (Scanner_new_inr o sc Hnew) as (p & _ & Hsc).
  unfold run_state.
  set (sc0 := if maxPages sc <=? 0 then set_maxPages sc 1 else sc).
  assert (Hm : maxPages sc0 = Z.max 1 (opt_crawlLimit o)).
  { unfold sc0. rewrite Hsc. cbn [maxPages].
    destruct (Z.leb_spec (opt_crawlLimit o) 0); simpl; lia. }
  assert (Hv : visited sc0 = [] /\ queue sc0 = [opt_url o]
               /\ pushed sc0 = [opt_url o]
               /\ scanLevel sc0 = opt_scanLevel o).
  { unfold sc0. rewrite Hsc. cbn [maxPages].
    destruct (opt_crawlLimit o <=? 0); simpl; tauto. }
  destruct Hv as (Hv & Hq & Hp & Hl).
  assert (Hpf : forall u, pageFindings sc0 u = pageFindings sc u).
  { intros u. unfold sc0. destruct (maxPages sc <=? 0); [|reflexivity].
    apply pageFindings_set_maxPages. }
  destruct (run_loop_invariant
    (fun st => dedup_inv (fst st) /\ seed_inv (opt_url o) (fst st)
               /\ Z.of_nat (length (visited (fst st))) <= maxPages (fst st)
               /\ findings_inv sc0 st
               /\ (opt_scanLevel o = "quick" ->
                   quick_inv (opt_url o) (fst st))))
    with (st := (sc0, @nil InsertVulnerability))
    as [(Hd & Hs & Hb & [Hc Hf] & Hk) Hexit].
  - intros st (Hd & Hs & Hb & Hf & Hk) Hcond.
    split; [apply loop_body_dedup; exact Hd|].
    split; [apply loop_body_seed; exact Hs|].
    split.
    + destruct st as [s vs].
      pose proof (loop_body_config s vs) as (-> & _).
      apply (loop_body_budget (s, vs) Hcond).
    + split; [apply loop_body_findings; exact Hf|].
      intros Q. apply loop_body_quick. exact (Hk Q).
  - cbn [fst snd]. unfold dedup_inv, seed_inv, quick_inv, findings_inv.
    rewrite Hv, Hq, Hp, Hl, Hm. cbn [fst snd length app flat_map].
    repeat split; try tauto; try reflexivity; try lia.
    + constructor; [simpl; tauto|constructor].
    + rewrite Hv. reflexivity.
  - set (st := run_loop (sc0, [])) in *.
    destruct Hc as (Hmax & _).
    constructor; try assumption.
    + destruct Hs as [[Hs1 Hs2]|Hs]; [|exact Hs].
      exfalso. unfold loop_cond in Hexit. rewrite Hs1, Hs2, Hmax, Hm in Hexit.
      simpl in Hexit. apply Z.ltb_ge in Hexit. lia.
    + rewrite <- Hm, <- Hmax. exact Hb.
    + rewrite Hmax. exact Hm.
    + rewrite Hf. apply flat_map_ext. exact Hpf.
Qed.

Lemma run_scannedUrls sc :
  scannedUrls (run sc) = visited (fst (run_state sc))
  /\ vulnerabilities (run sc) = snd (run_state sc)
  /\ summary (run sc) = calculateSummary (snd (run_state sc)).
Proof. unfold run. destruct (run_state sc). simpl. tauto. Qed.

Lemma runScan_run o sc : Scanner_new o = inr sc -> runScan o = inr (run sc).
Proof. unfold runScan. intros ->. reflexivity. Qed.

Lemma dedup_visited sc : dedup_inv sc -> NoDup (visited sc).
Proof.
  intros [Hnd Hp]. apply (Permutation_NoDup Hp) in Hnd.
  apply NoDup_app_remove_r in Hnd. exact Hnd.
Qed.

(** C2.  A scan returns, having visited at most max(1, crawlLimit) distinct
    URLs, the seed among them; a crawl limit of 0 or less counts as 1 and
    the seed alone is visited. *)
Theorem visited_within_budget (o : ScanOptions) (sc : Scanner)
    (Hnew : Scanner_new o = inr sc) :
  let r := run sc in
  runScan o = inr r
  /\ Z.of_nat (length (scannedUrls r)) <= Z.max 1 (opt_crawlLimit o)
  /\ NoDup (scannedUrls r)
  /\ In (opt_url o) (scannedUrls r)
  /\ (opt_crawlLimit o <= 0 ->
      maxPages (fst (run_state sc)) = 1 /\ scannedUrls r = [opt_url o]).
Proof.
  cbn zeta. destruct (run_scannedUrls sc) as (-> & _).
  destruct (run_state_exit o sc Hnew) as [Hd Hs Hb Hm _ _ _].
  split; [apply runScan_run; exact Hnew|].
  split; [exact Hb|].
  split; [apply dedup_visited; exact Hd|].
  split.
  - destruct (visited (fst (run_state sc))); [discriminate|].
    simpl in Hs. left. congruence.
  - intros Hle. rewrite Hm, Z.max_l by lia. split; [reflexivity|].
    rewrite Z.max_l in Hb by lia.
    destruct (visited (fst (run_state sc))) as [|a [|b l]];
      [discriminate| |simpl in Hb; lia].
    simpl in Hs. congruence.
Qed.

(** C5.  In a quick scan no link is ever pushed on the frontier, and the
    seed is the one URL visited whatever the page budget. *)
Theorem quick_scan_visits_seed_only (o : ScanOptions) (sc : Scanner)
    (Hnew : Scanner_new o = inr sc) (Hquick : opt_scanLevel o = "quick") :
  let r := run sc in
  (length (scannedUrls r) <= 1)%nat
  /\ scannedUrls r = [opt_url o]
  /\ pushed (fst (run_state sc)) = [opt_url o]
  /\ (forall s vs u, scanLevel s = "quick" -> fst (scanPage s vs u) = s).
Proof.
  cbn zeta. destruct (run_scannedUrls sc) as (-> & _).
  destruct (run_state_exit o sc Hnew) as [_ Hs _ _ _ Hk _].
  destruct (Hk Hquick) as (_ & Hp & [[Hv _]|[Hv _]]).
  - rewrite Hv in Hs. discriminate.
  - rewrite Hv. simpl. repeat split; try lia; try assumption.
    intros s vs u. apply scanPage_quick.
Qed.

(** C7.  No URL is pushed on the frontier twice, the visited list has no
    duplicates, a dequeued URL that is already visited is dropped without
    touching the visited set or the findings, and a link is pushed only
    when it is neither visited nor queued. *)
Theorem no_url_processed_twice (o : ScanOptions) (sc : Scanner)
    (Hnew : Scanner_new o = inr sc) :
  let st := run_state sc in
  NoDup (pushed (fst st))
  /\ NoDup (scannedUrls (run sc))
  /\ incl (scannedUrls (run sc)) (pushed (fst st))
  /\ (forall s vs u rest,
        queue s = u :: rest -> In u (visited s) ->
        loop_body (s, vs) = (set_queue s rest, vs))
  /\ (forall pageUrl s link,
        let s' := extractLinks_step pageUrl s link in
        s' = s
        \/ exists a, s' = queue_push s a
             /\ ~ In a (visited s) /\ ~ In a (queue s)).
Proof.
  cbn zeta. destruct (run_scannedUrls sc) as (-> & _).
  destruct (run_state_exit o sc Hnew) as [Hd _ _ _ _ _ _].
  split; [exact (proj1 Hd)|].
  split; [apply dedup_visited; exact Hd|].
  split; [|split].
  - intros u Hu. destruct Hd as [_ Hp].
    apply (Permutation_in _ (Permutation_sym Hp)).
    apply in_or_app. left. exact Hu.
  - intros s vs u rest Hq Hu. unfold loop_body. rewrite Hq.
    cbn [set_queue visited]. apply includes_In in Hu. rewrite Hu.
    reflexivity.
  - intros pageUrl s link.
    destruct (extractLinks_step_cases pageUrl s link)
      as [E|(a & E & Hv & Hq & _)]; [left; exact E|].
    right. exists a. tauto.
Qed.

(** C4.  A failed fetch adds the one access-error finding (low severity,
    category Accessibility, the error message in its details) and nothing
    to the frontier; the turn of the loop that meets it moves the URL to
    the visited set, keeps the rest of the queue, and the loop goes on
    from there, so that a scan ends only with its budget used or its queue
    empty.  The findings of a scan are those of its visited pages; a scan
    of an unreachable seed returns that single finding. *)
Theorem fetch_failure_recorded (o : ScanOptions) (sc : Scanner)
    (Hnew : Scanner_new o = inr sc) :
  let r := run sc in
  let final := fst (run_state sc) in
  runScan o = inr r
  /\ vulnerabilities r = flat_map (pageFindings sc) (scannedUrls r)
  /\ (forall s vs u e, axios_get u = inr e ->
        let f := accessError u e in
        scanPage s vs u = (s, vs ++ [f])
        /\ pageFindings sc u = [f]
        /\ name f = "URL Access Error" /\ severity f = "low"
        /\ category f = "Accessibility" /\ url f = u
        /\ details f = [("error", JString (errorMessage e))]
        /\ (forall m, message e = Some m -> errorMessage e = m))
  /\ (forall st, loop_cond st = true -> run_loop st = run_loop (loop_body st))
  /\ (forall s vs u rest e,
        queue s = u :: rest -> ~ In u (visited s) -> axios_get u = inr e ->
        let next :=
          (mkScanner (options s) (visited s ++ [u]) rest (maxPages s)
             (baseUrl s) (customRules s) (scanLevel s) (pushed s),
           vs ++ [accessError u e]) in
        loop_body (s, vs) = next
        /\ (loop_cond (s, vs) = true -> run_loop (s, vs) = run_loop next))
  /\ (Z.of_nat (length (scannedUrls r)) = Z.max 1 (opt_crawlLimit o)
      \/ (queue final = []
          /\ forall u, In u (pushed final) -> In u (scannedUrls r)))
  /\ (forall e, axios_get (opt_url o) = inr e ->
        scannedUrls r = [opt_url o]
        /\ vulnerabilities r = [accessError (opt_url o) e]
        /\ lowSeverity (summary r) = 1).
Proof.
  cbn zeta. destruct (run_scannedUrls sc) as (Eu & Ev & Es).
  destruct (run_state_exit o sc Hnew) as [Hd Hs Hb Hmax Hf _ Hexit].
  assert (Hfail : forall s vs u e, axios_get u = inr e ->
            scanPage s vs u = (s, vs ++ [accessError u e])).
  { intros s vs u e He. unfold scanPage. rewrite He. reflexivity. }
  assert (Hturn : forall s vs u rest e,
            queue s = u :: rest -> ~ In u (visited s) ->
            axios_get u = inr e ->
            loop_body (s, vs)
            = (mkScanner (options s) (visited s ++ [u]) rest (maxPages s)
                 (baseUrl s) (customRules s) (scanLevel s) (pushed s),
               vs ++ [accessError u e])).
  { intros s vs u rest e Hq Hu He. unfold loop_body. rewrite Hq.
    cbn [set_queue visited]. apply includes_not_In in Hu.
    unfold Set_add. rewrite Hu. rewrite (Hfail _ _ _ _ He). reflexivity. }
  split; [apply runScan_run; exact Hnew|].
  split; [rewrite Eu, Ev; exact Hf|].
  split; [|split; [|split; [|split]]].
  - intros s vs u e He. split; [apply Hfail; exact He|].
    split; [unfold pageFindings; rewrite (Hfail _ _ _ _ He); reflexivity|].
    repeat split. intros m Hm. unfold errorMessage. rewrite Hm. reflexivity.
  - intros st Hc. rewrite (run_loop_while st), Hc. reflexivity.
  - intros s vs u rest e Hq Hu He. cbn zeta.
    split; [exact (Hturn s vs u rest e Hq Hu He)|].
    intros Hc. rewrite (run_loop_while (s, vs)), Hc.
    rewrite (Hturn s vs u rest e Hq Hu He). reflexivity.
  - rewrite Eu. unfold loop_cond in Hexit. apply andb_false_iff in Hexit.
    destruct Hexit as [Hq|Hv].
    + right. apply Z.ltb_ge in Hq.
      destruct (queue (fst (run_state sc))) eqn:E; [|simpl in Hq; lia].
      split; [reflexivity|]. intros u Hu. destruct Hd as [_ Hp].
      rewrite E, app_nil_r in Hp. exact (Permutation_in _ Hp Hu).
    + left. apply Z.ltb_ge in Hv. rewrite Hmax in Hv. lia.
  - intros e He.
    assert (Hvis : visited (fst (run_state sc)) = [opt_url o]).
    { revert Hd Hs Hexit. unfold run_state.
      set (sc0 := if maxPages sc <=? 0 then set_maxPages sc 1 else sc).
      destruct (Scanner_new_inr o sc Hnew) as (p & _ & Hsc).
      assert (H0 : visited sc0 = [] /\ queue sc0 = [opt_url o]
                   /\ 1 <= maxPages sc0).
      { unfold sc0. rewrite Hsc. cbn [maxPages].
        destruct (Z.leb_spec (opt_crawlLimit o) 0); simpl;
          repeat split; lia. }
      destruct H0 as (H1 & H2 & H3).
      rewrite (run_loop_while (sc0, [])).
      replace (loop_cond (sc0, [])) with true
        by (unfold loop_cond; cbn [fst]; rewrite H1, H2; simpl;
            symmetry; apply Z.ltb_lt; lia).
      unfold loop_body. rewrite H2. cbn [set_queue visited].
      rewrite H1. cbn [includes existsb Set_add app].
      rewrite (Hfail _ _ _ _ He).
      rewrite run_loop_while. unfold loop_cond. cbn [fst set_visited queue].
      cbn [length Z.of_nat Z.ltb Z.compare andb]. cbn [fst visited].
      reflexivity. }
    rewrite Eu, Es, Ev, Hf, Hvis. cbn [flat_map].
    unfold pageFindings. rewrite (Hfail _ _ _ _ He). cbn [snd app].
    repeat split.
Qed.

(** The claim's reading of a seed that has an origin: [new URL] accepts it
    and gives it a scheme and a host. *)
Definition has_scheme_and_host (u : string) : bool :=
  match URL_parse u with
  | Some p => negb (String.eqb (protocol p) "") && negb (String.eqb (host p) "")
  | None => false
  end.

(** C9, as amended.  The scan is fatal exactly for a seed on which
    [new URL] throws: the constructor then throws 'Invalid URL format' and
    there is no result.  A seed that [new URL] accepts is scanned, with a
    host or without: the base URL is its protocol, two slashes and its
    host, and the seed is the first URL visited. *)
Theorem invalid_seed_is_fatal (o : ScanOptions) :
  (URL_parse (opt_url o) = None ->
     Scanner_new o = inl "Invalid URL format"
     /\ runScan o = inl "Invalid URL format")
  /\ (forall msg, runScan o = inl msg ->
        URL_parse (opt_url o) = None /\ msg = "Invalid URL format")
  /\ (forall p, URL_parse (opt_url o) = Some p ->
        exists sc, Scanner_new o = inr sc /\ runScan o = inr (run sc)
                   /\ visited sc = [] /\ queue sc = [opt_url o]
                   /\ baseUrl sc
                      = String.append (protocol p)
                          (String.append "//" (host p))
                   /\ hd_error (scannedUrls (run sc)) = Some (opt_url o)).
Proof.
  split; [|split].
  - unfold runScan, Scanner_new. intros ->. split; reflexivity.
  - unfold runScan, Scanner_new. intros msg.
    destruct (URL_parse (opt_url o)); [discriminate|].
    intros E. injection E as <-. split; reflexivity.
  - intros p Hp.
    assert (Hnew : Scanner_new o
                   = inr (mkScanner o [] [opt_url o] (opt_crawlLimit o)
                            (String.append (protocol p)
                               (String.append "//" (host p)))
                            (match opt_customRules o with
                             | Some rs => rs
                             | None => []
                             end)
                            (opt_scanLevel o) [opt_url o]))
      by (unfold Scanner_new; rewrite Hp; reflexivity).
    eexists. split; [exact Hnew|].
    split; [apply runScan_run; exact Hnew|].
    split; [reflexivity|]. split; [reflexivity|]. split; [reflexivity|].
    destruct (run_scannedUrls
                (mkScanner o [] [opt_url o] (opt_crawlLimit o)
                   (String.append (protocol p)
                      (String.append "//" (host p)))
                   (match opt_customRules o with
                    | Some rs => rs
                    | None => []
                    end)
                   (opt_scanLevel o) [opt_url o])) as (-> & _).
    exact (exit_seed _ _ _ (run_state_exit o _ Hnew)).
Qed.

End ScanFacts.

(** ** The same-origin filter *)

Section OriginFacts.
Context {PF : Platform}.

(** What the filter of [extractLinks] ensures: every URL pushed after the
    seed starts with the base URL, as a string. *)
Definition prefix_inv (seed : string) (sc : Scanner) : Prop :=
  exists rest, pushed sc = seed :: rest
    /\ Forall (fun a => startsWith a (baseUrl sc) = true) rest.

Lemma extractLinks_prefix seed sc pageUrl html :
  prefix_inv seed sc -> prefix_inv seed (extractLinks sc pageUrl html).
Proof.
  unfold extractLinks.
  destruct (cheerio_hrefs html) as [links|]; [|tauto].
  revert sc. induction links as [|l links IH]; intros sc H; simpl;
    [exact H|].
  apply IH.
  destruct (extractLinks_step_cases pageUrl sc l)
    as [->|(a & -> & _ & _ & Hp)]; [exact H|].
  destruct H as (rest & E & HF). exists (rest ++ [a]). simpl.
  rewrite E. split; [reflexivity|].
  apply Forall_app. split; [exact HF|]. constructor; [exact Hp|constructor].
Qed.

Lemma scanPage_prefix seed sc vs u :
  prefix_inv seed sc -> prefix_inv seed (fst (scanPage sc vs u)).
Proof.
  intros H. unfold scanPage.
  destruct (axios_get u) as [resp|e]; [|exact H].
  destruct (detectVulnerabilities u resp (scanLevel sc)); [|exact H].
  cbn [fst].
  destruct (negb (String.eqb (scanLevel sc) "quick")); [|exact H].
  apply extractLinks_prefix. exact H.
Qed.

Lemma loop_body_prefix seed st :
  prefix_inv seed (fst st) -> prefix_inv seed (fst (loop_body st)).
Proof.
  destruct st as [[o v q m b rs l p] vs]. unfold loop_body.
  cbn [fst queue set_queue set_visited visited options maxPages baseUrl
       customRules scanLevel pushed].
  intros H. destruct q as [|u rest]; [exact H|].
  destruct (includes v u); [exact H|].
  apply scanPage_prefix. exact H.
Qed.

Lemma pushed_startsWith_baseUrl o sc :
  Scanner_new o = inr sc ->
  prefix_inv (opt_url o) (fst (run_state sc)).
Proof.
  intros Hnew. destruct (Scanner_new_inr o sc Hnew) as (p & _ & Hsc).
  unfold run_state.
  apply (run_loop_invariant (fun st => prefix_inv (opt_url o) (fst st))).
  - intros st H _. apply loop_body_prefix. exact H.
  - exists []. rewrite Hsc. cbn [maxPages].
    destruct (opt_crawlLimit o <=? 0); simpl; split; constructor.
Qed.

End OriginFacts.

(** C1.  The filter compares string prefixes, not origins: from the seed
    http://example.com/ the link http://example.com.evil.com/ is pushed and
    fetched, although its host is not the seed's. *)
Theorem cross_origin_link_followed :
  exists r,
    @runScan (webOf lookalikeSite) lookalikeOptions = inr r
    /\ scannedUrls r
       = ["http://example.com/"; "http://example.com.evil.com/"]
    /\ option_map host (@URL_parse (webOf lookalikeSite) "http://example.com/")
       = Some "example.com"
    /\ option_map host
         (@URL_parse (webOf lookalikeSite) "http://example.com.evil.com/")
       = Some "example.com.evil.com".
Proof. eexists. vm_compute. repeat split. Qed.

(** ** The theorems at work on the example web *)

(** The crawl goes past a page that cannot be fetched. *)
Example scan_goes_past_dead_link :
  option_map (fun r => (scannedUrls r, map name (vulnerabilities r)))
    (match @runScan (webOf gapSite)
             (mkOptions "http://example.com/" "standard" 5 false false None)
     with inr r => Some r | inl _ => None end)
  = Some (["http://example.com/"; "http://example.com/gone";
           "http://example.com/here"],
          ["URL Access Error"]).
Proof. vm_compute. reflexivity. Qed.

(** Scenario C of the specification in small: ten same-origin links and a
    budget of three give three visited URLs. *)
Example budget_of_three :
  let links := ["/1"; "/2"; "/3"; "/4"; "/5"; "/6"; "/7"; "/8"; "/9"; "/10"] in
  let site := [mkPage "http://example.com/" "<p>ten links</p>" links] in
  option_map (fun r => length (scannedUrls r))
    (match @runScan (webOf site)
             (mkOptions "http://example.com/" "standard" 3 false false None)
     with inr r => Some r | inl _ => None end)
  = Some 3%nat.
Proof. vm_compute. reflexivity. Qed.

(** The summary of four findings and of their reversal. *)
Lemma calculateSummary_spec_witness :
  let F := sampleFindings in
  let F' := rev sampleFindings in
  Permutation F F'
  /\ securityScore (calculateSummary F) = clamp (100 - 10 - 5 - 2) 0 100
  /\ calculateSummary F' = calculateSummary F.
Proof.
  assert (HP : Permutation sampleFindings (rev sampleFindings))
    by apply Permutation_rev.
  split; [exact HP|].
  split; [exact (proj1 (proj2 (proj2 (proj2 (proj2
            (calculateSummary_spec _ _ HP))))))
         |exact (proj2 (proj2 (proj2 (proj2 (proj2
            (calculateSummary_spec _ _ HP))))))].
Defined.

(** A finding of severity safe among the four. *)
Lemma severity_buckets_le_total_witness :
  let v := mkVulnerability 0 "Home link" "The page links home"
             "http://example.com/a" "safe" "Info" [] "pending" in
  let S := calculateSummary sampleFindings in
  ~ bucketed v
  /\ highSeverity S + mediumSeverity S + lowSeverity S < totalVulnerabilities S
  /\ securityScore S = securityScore (calculateSummary (firstn 3 sampleFindings)).
Proof.
  cbn zeta.
  assert (Hv : ~ bucketed (mkVulnerability 0 "Home link" "The page links home"
             "http://example.com/a" "safe" "Info" [] "pending")).
  { intros [H|[H|H]]; discriminate H. }
  split; [exact Hv|].
  pose proof (proj2 (severity_buckets_le_total sampleFindings)
                (firstn 3 sampleFindings) _ [] eq_refl Hv) as W.
  split; [exact (proj1 W)|].
  exact (proj2 (proj2 (proj2 (proj2 (proj2 W))))).
Defined.

(** The password rule matches two of the three pages. *)
Lemma custom_rule_one_finding_per_page_witness :
  let pages := map (fun p => (page_url p, page_body p)) demoSite in
  NoDup (map rule_id demoRules) /\ In passwordRule demoRules
  /\ rule_enabled passwordRule = true
  /\ length (filter (from_rule 1)
               (flat_map (fun pg => @checkCustomRules (webOf demoSite)
                                      demoRules (fst pg) (snd pg)) pages))
     = 2%nat.
Proof.
  cbn zeta.
  assert (Hids : NoDup (map rule_id demoRules)).
  { simpl. repeat constructor; simpl; intuition discriminate. }
  split; [exact Hids|].
  split; [left; reflexivity|].
  split; [reflexivity|].
  exact (proj1 (proj2 (proj2
    (@custom_rule_one_finding_per_page (webOf demoSite) demoRules passwordRule
       Hids (or_introl eq_refl) eq_refl))) _).
Defined.

(** The scan with and without the rule whose pattern does not compile. *)
Lemma broken_rule_is_skipped_witness :
  (forall content,
      @RegExp_test (webOf demoSite) (rule_pattern brokenRule) content = None)
  /\ @runScan (webOf demoSite) (demoOptions "standard" 5)
     = @runScan (webOf demoSite)
         (options_with_rules [passwordRule; homeRule]
            (demoOptions "standard" 5)).
Proof.
  split; [intros content; reflexivity|].
  exact (proj2 (proj2
    (@broken_rule_is_skipped (webOf demoSite) [passwordRule] [homeRule]
       brokenRule (fun _ => eq_refl)))
    (demoOptions "standard" 5) eq_refl).
Defined.

(** Budgets of two and of zero on the example web. *)
Lemma visited_within_budget_witness :
  let o := demoOptions "standard" 2 in
  let sc := demoScanner "standard" 2 in
  @Scanner_new (webOf demoSite) o = inr sc
  /\ Z.of_nat (length (scannedUrls (@run (webOf demoSite) sc))) <= 2
  /\ (@Scanner_new (webOf demoSite) (demoOptions "standard" 0)
      = inr (demoScanner "standard" 0)
      /\ scannedUrls (@run (webOf demoSite) (demoScanner "standard" 0))
         = ["http://example.com/"]).
Proof.
  cbn zeta. split; [reflexivity|].
  split.
  - exact (proj1 (proj2
      (@visited_within_budget (webOf demoSite) (demoOptions "standard" 2)
         (demoScanner "standard" 2) eq_refl))).
  - split; [reflexivity|].
    refine (proj2 (proj2 (proj2 (proj2 (proj2
      (@visited_within_budget (webOf demoSite) (demoOptions "standard" 0)
         (demoScanner "standard" 0) eq_refl)))) _)).
    discriminate.
Defined.

(** A quick scan with a budget of five. *)
Lemma quick_scan_visits_seed_only_witness :
  let o := demoOptions "quick" 5 in
  let sc := demoScanner "quick" 5 in
  @Scanner_new (webOf demoSite) o = inr sc
  /\ opt_scanLevel o = "quick"
  /\ scannedUrls (@run (webOf demoSite) sc) = ["http://example.com/"].
Proof.
  cbn zeta. split; [reflexivity|]. split; [reflexivity|].
  exact (proj1 (proj2
    (@quick_scan_visits_seed_only (webOf demoSite) (demoOptions "quick" 5)
       (demoScanner "quick" 5) eq_refl eq_refl))).
Defined.

(** A standard scan of the example web, whose pages link to each other. *)
Lemma no_url_processed_twice_witness :
  let o := demoOptions "standard" 5 in
  let sc := demoScanner "standard" 5 in
  @Scanner_new (webOf demoSite) o = inr sc
  /\ NoDup (pushed (fst (@run_state (webOf demoSite) sc)))
  /\ NoDup (scannedUrls (@run (webOf demoSite) sc)).
Proof.
  cbn zeta. split; [reflexivity|].
  pose proof (@no_url_processed_twice (webOf demoSite)
                (demoOptions "standard" 5) (demoScanner "standard" 5) eq_refl)
    as W.
  split; [exact (proj1 W)|exact (proj1 (proj2 W))].
Defined.

(** A seed whose first link is dead and whose second is alive: the dead
    link is recorded and the crawl goes on to the live one. *)
Lemma fetch_failure_recorded_witness :
  let e := mkThrown (Some "getaddrinfo ENOTFOUND") in
  let gone := "http://example.com/gone" in
  let here := "http://example.com/here" in
  let after_seed :=
    mkScanner gapOptions ["http://example.com/"] [gone; here] 5
      "http://example.com" [] "standard" ["http://example.com/"; gone; here] in
  @Scanner_new (webOf gapSite) gapOptions = inr gapScanner
  /\ queue after_seed = [gone; here] /\ ~ In gone (visited after_seed)
  /\ @axios_get (webOf gapSite) gone = inr e
  /\ @loop_body (webOf gapSite) (after_seed, [])
     = (mkScanner gapOptions ["http://example.com/"; gone] [here] 5
          "http://example.com" [] "standard"
          ["http://example.com/"; gone; here],
        [@accessError gone e])
  /\ scannedUrls (@run (webOf gapSite) gapScanner)
     = ["http://example.com/"; gone; here]
  /\ vulnerabilities (@run (webOf gapSite) gapScanner)
     = flat_map (@pageFindings (webOf gapSite) gapScanner)
         (scannedUrls (@run (webOf gapSite) gapScanner)).
Proof.
  cbn zeta.
  assert (Hfresh : ~ In "http://example.com/gone" ["http://example.com/"])
    by (intros [H|[]]; discriminate H).
  pose proof (@fetch_failure_recorded (webOf gapSite) gapOptions gapScanner
                eq_refl) as W.
  split; [reflexivity|]. split; [reflexivity|]. split; [exact Hfresh|].
  split; [reflexivity|].
  split.
  - exact (proj1 (proj1 (proj2 (proj2 (proj2 (proj2 W))))
             (mkScanner gapOptions ["http://example.com/"]
                ["http://example.com/gone"; "http://example.com/here"] 5
                "http://example.com" [] "standard"
                ["http://example.com/"; "http://example.com/gone";
                 "http://example.com/here"])
             [] "http://example.com/gone" ["http://example.com/here"]
             (mkThrown (Some "getaddrinfo ENOTFOUND"))
             eq_refl Hfresh eq_refl)).
  - split; [reflexivity|]. exact (proj1 (proj2 W)).
Defined.

(** A seed that is not a URL, and a seed without a host. *)
Lemma invalid_seed_is_fatal_witness :
  let o := mkOptions "example dot com" "standard" 5 false false None in
  let m := mkOptions "mailto:a@b.c" "standard" 5 false false None in
  @URL_parse opaqueWeb (opt_url o) = None
  /\ @runScan opaqueWeb o = inl "Invalid URL format"
  /\ @URL_parse opaqueWeb (opt_url m) = Some (mkParsed "mailto:" "")
  /\ exists sc,
       @Scanner_new opaqueWeb m = inr sc
       /\ @runScan opaqueWeb m = inr (@run opaqueWeb sc)
       /\ visited sc = [] /\ queue sc = [opt_url m]
       /\ baseUrl sc = "mailto://"
       /\ hd_error (scannedUrls (@run opaqueWeb sc)) = Some (opt_url m).
Proof.
  cbn zeta. split; [reflexivity|].
  split.
  - exact (proj2 (proj1
      (@invalid_seed_is_fatal opaqueWeb
         (mkOptions "example dot com" "standard" 5 false false None))
      eq_refl)).
  - split; [reflexivity|].
    exact (proj2 (proj2
      (@invalid_seed_is_fatal opaqueWeb
         (mkOptions "mailto:a@b.c" "standard" 5 false false None)))
      (mkParsed "mailto:" "") eq_refl).
Defined.

(** C9, as the claim states it, fails: the seed mailto:a@b.c has no host,
    yet the constructor accepts it, the scan visits it and reports a
    finding. *)
Lemma hostless_seed_is_scanned :
  let o := mkOptions "mailto:a@b.c" "standard" 5 false false None in
  @has_scheme_and_host opaqueWeb (opt_url o) = false
  /\ ~ (exists msg, @runScan opaqueWeb o = inl msg)
  /\ exists r,
       @runScan opaqueWeb o = inr r
       /\ scannedUrls r = ["mailto:a@b.c"]
       /\ map name (vulnerabilities r) = ["URL Access Error"].
Proof.
  cbn zeta. split; [reflexivity|]. split.
  - intros [msg H]. vm_compute in H. discriminate H.
  - eexists. split; [reflexivity|]. split; vm_compute; reflexivity.
Qed.

(** ** Further properties of the crawl *)

Section CrawlOrder.
Context {PF : Platform}.

(** The frontier history is the visited list followed by the queue: URLs
    leave the queue in the order they entered it. *)
Definition fifo_inv (sc : Scanner) : Prop :=
  NoDup (pushed sc) /\ pushed sc = visited sc ++ queue sc.

Lemma extractLinks_fifo sc pageUrl html :
  fifo_inv sc -> fifo_inv (extractLinks sc pageUrl html).
Proof.
  unfold extractLinks.
  destruct (cheerio_hrefs html) as [links|]; [|tauto].
  revert sc. induction links as [|l links IH]; intros sc H; simpl;
    [exact H|].
  apply IH.
  destruct (extractLinks_step_cases pageUrl sc l)
    as [->|(a & -> & Hv & Hq & _)]; [exact H|].
  destruct H as [Hnd Hp]. unfold fifo_inv. simpl. split.
  - rewrite Hp in *. rewrite <- app_assoc.
    apply NoDup_app_remove_l with (l := []). simpl.
    rewrite app_assoc.
    apply (Permutation_NoDup (l := a :: (visited sc ++ queue sc))).
    + apply Permutation_cons_append.
    + constructor; [|exact Hnd].
      intros Hin. apply in_app_or in Hin. tauto.
  - rewrite Hp, app_assoc. reflexivity.
Qed.

Lemma scanPage_fifo sc vs u :
  fifo_inv sc -> fifo_inv (fst (scanPage sc vs u)).
Proof.
  intros H. unfold scanPage.
  destruct (axios_get u) as [resp|e]; [|exact H].
  destruct (detectVulnerabilities u resp (scanLevel sc)); [|exact H].
  cbn [fst].
  destruct (negb (String.eqb (scanLevel sc) "quick")); [|exact H].
  apply extractLinks_fifo. exact H.
Qed.

Lemma loop_body_fifo st :
  fifo_inv (fst st) -> fifo_inv (fst (loop_body st)).
Proof.
  destruct st as [[o v q m b rs l p] vs]. unfold loop_body.
  cbn [fst queue set_queue set_visited visited options maxPages baseUrl
       customRules scanLevel pushed].
  intros [Hnd Hp]. cbn [pushed visited queue] in *.
  destruct q as [|u rest]; [split; assumption|].
  assert (Hu : ~ In u v).
  { rewrite Hp in Hnd. apply NoDup_remove_2 in Hnd. intros Hin. apply Hnd.
    apply in_or_app. left. exact Hin. }
  apply includes_not_In in Hu. rewrite Hu.
  apply scanPage_fifo. unfold fifo_inv, Set_add. simpl.
  rewrite Hu, <- app_assoc. split; assumption.
Qed.

Lemma run_state_fifo o sc :
  Scanner_new o = inr sc ->
  fifo_inv (fst (run_state sc)) /\ loop_cond (run_state sc) = false.
Proof.
  intros Hnew. destruct (Scanner_new_inr o sc Hnew) as (p & _ & Hsc).
  unfold run_state.
  apply (run_loop_invariant (fun st => fifo_inv (fst st))).
  - intros st H _. apply loop_body_fifo. exact H.
  - rewrite Hsc. cbn [maxPages].
    destruct (opt_crawlLimit o <=? 0); unfold fifo_inv; simpl;
      (split; [constructor; [simpl; tauto|constructor]|reflexivity]).
Qed.

(** X2.  Pages are visited in the order their URLs were discovered: the
    history of the frontier is the list of visited URLs followed by the
    URLs still queued, and it begins with the seed. *)
Theorem visited_in_discovery_order (o : ScanOptions) (sc : Scanner)
    (Hnew : Scanner_new o = inr sc) :
  let st := run_state sc in
  pushed (fst st) = scannedUrls (run sc) ++ queue (fst st)
  /\ hd_error (scannedUrls (run sc)) = Some (opt_url o)
  /\ hd_error (pushed (fst st)) = Some (opt_url o).
Proof.
  cbn zeta. destruct (run_scannedUrls sc) as (-> & _).
  destruct (run_state_fifo o sc Hnew) as [[_ Hp] _].
  destruct (run_state_exit o sc Hnew) as [_ Hs _ _ _ _ _].
  split; [exact Hp|]. split; [exact Hs|].
  rewrite Hp. destruct (visited (fst (run_state sc))); [discriminate|].
  exact Hs.
Qed.

(** X3.  The crawl stops early only for want of URLs: it either uses the
    whole budget max(1, crawlLimit), or leaves the queue empty, having
    visited every URL it discovered. *)
Theorem budget_used_or_frontier_empty (o : ScanOptions) (sc : Scanner)
    (Hnew : Scanner_new o = inr sc) :
  let st := run_state sc in
  Z.of_nat (length (scannedUrls (run sc))) = Z.max 1 (opt_crawlLimit o)
  \/ (queue (fst st) = [] /\ scannedUrls (run sc) = pushed (fst st)).
Proof.
  cbn zeta. destruct (run_scannedUrls sc) as (-> & _).
  destruct (run_state_fifo o sc Hnew) as [[_ Hp] Hexit].
  destruct (run_state_exit o sc Hnew) as [_ _ Hb Hm _ _ _].
  unfold loop_cond in Hexit. apply andb_false_iff in Hexit.
  destruct Hexit as [Hq|Hv].
  - right. apply Z.ltb_ge in Hq.
    destruct (queue (fst (run_state sc))) eqn:E; [|simpl in Hq; lia].
    split; [reflexivity|]. rewrite Hp, app_nil_r. reflexivity.
  - left. apply Z.ltb_ge in Hv. rewrite Hm in Hv. lia.
Qed.

Lemma run_state_baseUrl sc :
  baseUrl (fst (run_state sc)) = baseUrl sc.
Proof.
  unfold run_state.
  set (sc0 := if maxPages sc <=? 0 then set_maxPages sc 1 else sc).
  assert (H0 : baseUrl sc0 = baseUrl sc)
    by (unfold sc0; destruct (maxPages sc <=? 0); reflexivity).
  rewrite <- H0.
  apply (run_loop_invariant (fun st => baseUrl (fst st) = baseUrl sc0)).
  - intros [s vs] H _.
    pose proof (loop_body_config s vs) as (_ & Hb & _).
    cbn [fst] in *. congruence.
  - reflexivity.
Qed.

(** X1.  What the link filter does ensure: every visited URL other than
    the seed starts, as a string, with the seed's protocol, two slashes
    and the seed's host. *)
Theorem visited_urls_start_with_base (o : ScanOptions) (sc : Scanner)
    (Hnew : Scanner_new o = inr sc) :
  exists p,
    URL_parse (opt_url o) = Some p
    /\ forall u, In u (scannedUrls (run sc)) ->
         u = opt_url o
         \/ startsWith u (String.append (protocol p)
                                        (String.append "//" (host p))) = true.
Proof.
  destruct (Scanner_new_inr o sc Hnew) as (p & Hp & Hsc).
  exists p. split; [exact Hp|].
  destruct (run_scannedUrls sc) as (-> & _).
  intros u Hu.
  destruct (pushed_startsWith_baseUrl o sc Hnew) as (rest & E & HF).
  destruct (run_state_fifo o sc Hnew) as [[_ Hq] _].
  assert (Hin : In u (pushed (fst (run_state sc))))
    by (rewrite Hq; apply in_or_app; left; exact Hu).
  rewrite E in Hin. destruct Hin as [<-|Hin]; [left; reflexivity|].
  right. rewrite Forall_forall in HF. specialize (HF u Hin).
  rewrite run_state_baseUrl in HF. rewrite Hsc in HF. exact HF.
Qed.

End CrawlOrder.

(** ** Further properties of link extraction *)

Section LinkFacts.
Context {PF : Platform}.

(** The link leaves the scanner as it is: it is skipped, does not resolve,
    resolves outside the base prefix, or resolves to a known URL. *)
Definition settled (pageUrl : string) (sc : Scanner) (link : string) : bool :=
  skipped_href link
  || match URL_href link pageUrl with
     | None => true
     | Some a =>
         negb (startsWith a (baseUrl sc))
         || includes (visited sc) a || includes (queue sc) a
     end.

Lemma settled_step pageUrl sc link :
  settled pageUrl sc link = true -> extractLinks_step pageUrl sc link = sc.
Proof.
  unfold settled, extractLinks_step.
  destruct (skipped_href link); [reflexivity|]. simpl.
  destruct (URL_href link pageUrl) as [a|]; [|reflexivity].
  destruct (startsWith a (baseUrl sc)); [|reflexivity].
  destruct (includes (visited sc) a); [reflexivity|].
  destruct (includes (queue sc) a); [reflexivity|discriminate].
Qed.

Lemma includes_app l1 l2 u :
  includes (l1 ++ l2) u = includes l1 u || includes l2 u.
Proof. unfold includes. apply existsb_app. Qed.

Lemma settled_after_step pageUrl sc link :
  settled pageUrl (extractLinks_step pageUrl sc link) link = true.
Proof.
  unfold settled, extractLinks_step.
  destruct (skipped_href link); [reflexivity|].
  destruct (URL_href link pageUrl) as [a|]; [|reflexivity].
  cbn [orb].
  destruct (startsWith a (baseUrl sc)) eqn:Ep;
    [|cbn [andb]; rewrite Ep; reflexivity].
  destruct (includes (visited sc) a) eqn:Ev;
    [cbn [andb negb]; rewrite Ep, Ev; reflexivity|].
  destruct (includes (queue sc) a) eqn:Eq; cbn [andb negb].
  - rewrite Ep, Ev, Eq. reflexivity.
  - cbn [queue_push baseUrl visited queue].
    rewrite Ep, Ev, includes_app. cbn [includes existsb].
    rewrite String.eqb_refl, !orb_true_r. reflexivity.
Qed.

Lemma settled_mono pageUrl sc link x :
  settled pageUrl sc link = true ->
  settled pageUrl (extractLinks_step pageUrl sc x) link = true.
Proof.
  intros H.
  destruct (extractLinks_step_cases pageUrl sc x) as [->|(a & -> & _)];
    [exact H|].
  revert H. unfold settled. cbn [queue_push baseUrl visited queue].
  destruct (skipped_href link); [reflexivity|]. simpl.
  destruct (URL_href link pageUrl) as [b|]; [|reflexivity].
  rewrite includes_app. intros H.
  apply orb_true_iff in H. destruct H as [H|H].
  - rewrite H. reflexivity.
  - rewrite H, !orb_true_r. reflexivity.
Qed.

Lemma settled_fold pageUrl links sc link :
  settled pageUrl sc link = true ->
  settled pageUrl (fold_left (extractLinks_step pageUrl) links sc) link = true.
Proof.
  revert sc. induction links as [|x xs IH]; intros sc H; simpl; [exact H|].
  apply IH. apply settled_mono. exact H.
Qed.

Lemma settled_all pageUrl links sc link :
  In link links ->
  settled pageUrl (fold_left (extractLinks_step pageUrl) links sc) link = true.
Proof.
  revert sc. induction links as [|x xs IH]; intros sc Hin; [contradiction|].
  simpl. destruct Hin as [->|Hin]; [|apply IH; exact Hin].
  apply settled_fold. apply settled_after_step.
Qed.

Lemma fold_settled pageUrl links sc :
  (forall link, In link links -> settled pageUrl sc link = true) ->
  fold_left (extractLinks_step pageUrl) links sc = sc.
Proof.
  induction links as [|x xs IH]; intros H; simpl; [reflexivity|].
  rewrite settled_step by (apply H; left; reflexivity).
  apply IH. intros link Hin. apply H. right. exact Hin.
Qed.

(** X4.  Extracting the links of a page a second time changes nothing:
    every link is then skipped, unresolvable, outside the base prefix, or
    already visited or queued. *)
Theorem extractLinks_idempotent (sc : Scanner) (pageUrl html : string) :
  extractLinks (extractLinks sc pageUrl html) pageUrl html
  = extractLinks sc pageUrl html.
Proof.
  unfold extractLinks.
  destruct (cheerio_hrefs html) as [links|]; [|reflexivity].
  apply fold_settled. intros link Hin. apply settled_all. exact Hin.
Qed.

(** X5.  Link extraction only appends to the queue: the URLs it adds are
    new to the visited set and to the queue, pairwise distinct, and start
    with the base URL; the visited set is untouched. *)
Theorem extractLinks_appends_new (sc : Scanner) (pageUrl html : string) :
  let sc' := extractLinks sc pageUrl html in
  exists added,
    queue sc' = queue sc ++ added
    /\ pushed sc' = pushed sc ++ added
    /\ visited sc' = visited sc
    /\ NoDup added
    /\ forall a, In a added ->
         ~ In a (visited sc) /\ ~ In a (queue sc)
         /\ startsWith a (baseUrl sc) = true.
Proof.
  cbn zeta. unfold extractLinks.
  destruct (cheerio_hrefs html) as [links|].
  2:{ exists []. rewrite !app_nil_r. repeat split; try constructor.
      all: contradiction. }
  revert sc. induction links as [|l links IH]; intros sc; simpl.
  - exists []. rewrite !app_nil_r. repeat split; try constructor.
    all: contradiction.
  - destruct (extractLinks_step_cases pageUrl sc l)
      as [->|(a & -> & Hv & Hq & Hp)]; [apply IH|].
    destruct (IH (queue_push sc a)) as (added & E1 & E2 & E3 & Hnd & Hall).
    cbn [queue_push queue pushed visited baseUrl] in *.
    exists (a :: added).
    rewrite E1, E2, E3, <- !app_assoc. simpl.
    split; [reflexivity|]. split; [reflexivity|]. split; [reflexivity|].
    split.
    + constructor; [|exact Hnd].
      intros Hin. destruct (Hall a Hin) as (_ & Hn & _).
      apply Hn. apply in_or_app. right. left. reflexivity.
    + intros b [<-|Hb]; [tauto|].
      destruct (Hall b Hb) as (Hbv & Hbq & Hbp).
      split; [exact Hbv|]. split; [|exact Hbp].
      intros Hin. apply Hbq. apply in_or_app. left. exact Hin.
Qed.

End LinkFacts.

(** ** Further properties of the summary *)

Section ScoreFacts.

Lemma securityScore_formula F :
  securityScore (calculateSummary F)
  = Z.min 100 (Z.max 0 (100 - (10 * Z.of_nat (occurrences "high" F)
                               + 5 * Z.of_nat (occurrences "medium" F)
                               + 2 * Z.of_nat (occurrences "low" F)))).
Proof.
  unfold calculateSummary. cbn [securityScore].
  rewrite !severity_count_occurrences. f_equal. f_equal. lia.
Qed.

(** X6.  The score lies between 0 and 100, more findings never raise it,
    and the total and the three counts of a concatenation are the sums of
    those of its parts. *)
Theorem summary_bounds_and_concatenation (F G : list InsertVulnerability) :
  let S := calculateSummary in
  0 <= securityScore (S F) <= 100
  /\ securityScore (S (F ++ G)) <= securityScore (S F)
  /\ totalVulnerabilities (S (F ++ G))
     = totalVulnerabilities (S F) + totalVulnerabilities (S G)
  /\ highSeverity (S (F ++ G)) = highSeverity (S F) + highSeverity (S G)
  /\ mediumSeverity (S (F ++ G)) = mediumSeverity (S F) + mediumSeverity (S G)
  /\ lowSeverity (S (F ++ G)) = lowSeverity (S F) + lowSeverity (S G).
Proof.
  cbn zeta. rewrite !securityScore_formula.
  unfold calculateSummary. cbn [totalVulnerabilities highSeverity
    mediumSeverity lowSeverity].
  rewrite !severity_count_occurrences, !occurrences_app, length_app.
  repeat split; lia.
Qed.

(** X7.  The score is 100 exactly when no finding is of high, medium or
    low severity, and 0 exactly when ten times the high, five times the
    medium and twice the low findings add up to 100 or more. *)
Theorem perfect_and_zero_score (F : list InsertVulnerability) :
  let S := calculateSummary F in
  (securityScore S = 100
   <-> highSeverity S = 0 /\ mediumSeverity S = 0 /\ lowSeverity S = 0)
  /\ (securityScore S = 0
      <-> 100 <= 10 * highSeverity S + 5 * mediumSeverity S
                 + 2 * lowSeverity S).
Proof.
  cbn zeta. rewrite securityScore_formula.
  unfold calculateSummary. cbn [highSeverity mediumSeverity lowSeverity].
  rewrite !severity_count_occurrences. split; split; lia.
Qed.

End ScoreFacts.

(** ** Further properties of the rule evaluator *)

Section EvaluatorFacts.
Context {PF : Platform}.

(** X8.  Every finding of the evaluator comes from an enabled rule of the
    list whose pattern matches the page, and is a pending finding for the
    page's URL with scan identifier 0; disabled rules can be dropped from
    the list, and there are at most as many findings as enabled rules. *)
Theorem checkCustomRules_sound (rules : list CustomRule) (u content : string) :
  Forall (fun f =>
            url f = u /\ scanId f = 0 /\ status f = "pending"
            /\ exists r, In r rules /\ rule_enabled r = true
                 /\ RegExp_test (rule_pattern r) content = Some true
                 /\ f = ruleFinding u r)
         (checkCustomRules rules u content)
  /\ checkCustomRules (filter rule_enabled rules) u content
     = checkCustomRules rules u content
  /\ (length (checkCustomRules rules u content)
      <= length (filter rule_enabled rules))%nat.
Proof.
  rewrite !checkCustomRules_filter. split; [|split].
  - apply Forall_forall. intros f Hf. apply in_map_iff in Hf.
    destruct Hf as (r & <- & Hr). apply filter_In in Hr.
    destruct Hr as [Hin Hc]. apply andb_prop in Hc. destruct Hc as [He Hm].
    repeat split. exists r. repeat split; try assumption.
    unfold matches in Hm.
    destruct (RegExp_test (rule_pattern r) content) as [[|]|];
      [reflexivity|discriminate|discriminate].
  - f_equal. induction rules as [|r rules IH]; simpl; [reflexivity|].
    destruct (rule_enabled r) eqn:E; simpl; [rewrite E|]; simpl;
      rewrite IH; reflexivity.
  - rewrite length_map. induction rules as [|r rules IH]; simpl; [lia|].
    destruct (rule_enabled r); simpl; [|exact IH].
    destruct (matches r content); simpl; lia.
Qed.

End EvaluatorFacts.

(** ** Options the crawl does not depend on *)

Section Reconfigure.
Context {PF : Platform}.

Definition options_with_auth (b : bool) (o : ScanOptions) : ScanOptions :=
  mkOptions (opt_url o) (opt_scanLevel o) (opt_crawlLimit o) b
    (opt_includeCustomRules o) (opt_customRules o).

(** The scanner with its options and its rule list replaced. *)
Definition reconfigured (o' : ScanOptions) (rules' : list CustomRule)
    (sc : Scanner) : Scanner :=
  mkScanner o' (visited sc) (queue sc) (maxPages sc) (baseUrl sc) rules'
    (scanLevel sc) (pushed sc).

(** The findings [run] takes from the rule evaluator for one page. *)
Definition customFindings (o : ScanOptions) (rules : list CustomRule)
    (u content : string) : list InsertVulnerability :=
  if opt_includeCustomRules o && (0 <? Z.of_nat (length rules))
  then checkCustomRules rules u content
  else [].

Variables (o o' : ScanOptions) (rules rules' : list CustomRule).
Hypothesis Hsame :
  forall u content,
    customFindings o' rules' u content = customFindings o rules u content.

Let moved (st : LoopState) : LoopState :=
  (reconfigured o' rules' (fst st), snd st).

Let configured (st : LoopState) : Prop :=
  options (fst st) = o /\ customRules (fst st) = rules.

Lemma extractLinks_reconfigured sc pageUrl html :
  extractLinks (reconfigured o' rules' sc) pageUrl html
  = reconfigured o' rules' (extractLinks sc pageUrl html).
Proof.
  unfold extractLinks.
  destruct (cheerio_hrefs html) as [links|]; [|reflexivity].
  revert sc. induction links as [|l links IH]; intros sc; simpl;
    [reflexivity|].
  rewrite <- IH. f_equal.
  unfold extractLinks_step.
  destruct (skipped_href l); [reflexivity|].
  destruct (URL_href l pageUrl); [|reflexivity].
  cbn [reconfigured baseUrl visited queue].
  match goal with |- context [if ?c then _ else _] => destruct c end;
    reflexivity.
Qed.

Lemma scanPage_reconfigured sc vs u :
  options sc = o -> customRules sc = rules ->
  scanPage (reconfigured o' rules' sc) vs u = moved (scanPage sc vs u).
Proof.
  intros Ho Hr. unfold scanPage, moved.
  destruct (axios_get u) as [resp|e]; [|reflexivity].
  cbn [reconfigured scanLevel options customRules].
  destruct (detectVulnerabilities u resp (scanLevel sc)) as [d|e];
    [|reflexivity].
  cbn [fst snd]. rewrite Ho, Hr.
  pose proof (Hsame u (data resp)) as E. unfold customFindings in E.
  f_equal.
  - destruct (negb (String.eqb (scanLevel sc) "quick")); [|reflexivity].
    apply extractLinks_reconfigured.
  - destruct (opt_includeCustomRules o' && (0 <? Z.of_nat (length rules')));
      destruct (opt_includeCustomRules o && (0 <? Z.of_nat (length rules))).
    + rewrite E. reflexivity.
    + rewrite E. apply app_nil_r.
    + rewrite <- E. symmetry. apply app_nil_r.
    + reflexivity.
Qed.

Lemma loop_body_reconfigured st :
  configured st -> loop_body (moved st) = moved (loop_body st).
Proof.
  destruct st as [[o0 v q m b rs l p] vs]. unfold moved, configured.
  cbn [fst snd options customRules]. intros [Ho Hr]. unfold loop_body.
  cbn [reconfigured queue visited set_queue set_visited options maxPages
       baseUrl customRules scanLevel pushed].
  destruct q as [|u rest]; [reflexivity|].
  destruct (includes v u); [reflexivity|].
  match goal with
  | |- _ = (reconfigured _ _ (fst (scanPage ?s vs u)), _) =>
      exact (scanPage_reconfigured s vs u Ho Hr)
  end.
Qed.

Lemma run_reconfigured sc :
  options sc = o -> customRules sc = rules ->
  run (reconfigured o' rules' sc) = run sc.
Proof.
  intros Ho Hr. unfold run, run_state. cbn [reconfigured maxPages].
  set (sc0 := if maxPages sc <=? 0 then set_maxPages sc 1 else sc).
  assert (H0 : configured (sc0, []))
    by (unfold sc0, configured; destruct (maxPages sc <=? 0); simpl; tauto).
  replace (if maxPages sc <=? 0
           then set_maxPages (reconfigured o' rules' sc) 1
           else reconfigured o' rules' sc)
    with (reconfigured o' rules' sc0)
    by (unfold sc0; destruct (maxPages sc <=? 0); reflexivity).
  change (reconfigured o' rules' sc0, @nil InsertVulnerability)
    with (moved (sc0, [])).
  rewrite (run_loop_commute configured moved).
  - unfold moved. destruct (run_loop (sc0, [])) as [s vs]. reflexivity.
  - intros [s vs] [Hs1 Hs2] _.
    pose proof (loop_body_config s vs) as (_ & _ & _ & Hc & Hopt).
    unfold configured. cbn [fst] in *. split; congruence.
  - intros st _. reflexivity.
  - intros st Hs. apply loop_body_reconfigured. exact Hs.
  - exact H0.
Qed.

End Reconfigure.

Section InertOptions.
Context {PF : Platform}.

(** X9.  With includeCustomRules off the rule list plays no part: the scan
    returns the same result whatever rules are supplied. *)
Theorem rules_ignored_when_not_included (o : ScanOptions)
    (rules : list CustomRule)
    (Hoff : opt_includeCustomRules o = false) :
  runScan (options_with_rules rules o) = runScan o.
Proof.
  unfold runScan, Scanner_new.
  cbn [options_with_rules opt_url opt_customRules opt_scanLevel
       opt_crawlLimit].
  destruct (URL_parse (opt_url o)) as [p|]; [|reflexivity].
  f_equal.
  match goal with |- run ?a = run ?b =>
    change a with (reconfigured (options_with_rules rules o) rules b) end.
  apply (run_reconfigured o (options_with_rules rules o)
           (match opt_customRules o with Some rs => rs | None => [] end));
    try reflexivity.
  intros u content. unfold customFindings.
  cbn [options_with_rules opt_includeCustomRules]. rewrite Hoff.
  reflexivity.
Qed.

(** X10.  The useAuthentication flag is inert: the scan returns the same
    result with the flag set and cleared. *)
Theorem useAuthentication_is_inert (o : ScanOptions) (b : bool) :
  runScan (options_with_auth b o) = runScan o.
Proof.
  unfold runScan, Scanner_new.
  cbn [options_with_auth opt_url opt_customRules opt_scanLevel
       opt_crawlLimit].
  destruct (URL_parse (opt_url o)) as [p|]; [|reflexivity].
  f_equal.
  match goal with |- run ?a = run ?s =>
    change a with (reconfigured (options_with_auth b o) (customRules s) s)
  end.
  apply (run_reconfigured o (options_with_auth b o)
           (match opt_customRules o with Some rs => rs | None => [] end));
    reflexivity.
Qed.

End InertOptions.

(** ** Unreachable pages in the summary *)

Section FailureFacts.
Context {PF : Platform}.

(** [axios.get] throws on the URL. *)
Definition fetch_fails (u : string) : bool :=
  match axios_get u with
  | inl _ => false
  | inr _ => true
  end.

Lemma pageFindings_low_bound sc urls :
  (length (filter fetch_fails urls)
   <= occurrences "low" (flat_map (pageFindings sc) urls))%nat.
Proof.
  induction urls as [|u urls IH]; simpl; [lia|].
  rewrite occurrences_app. unfold fetch_fails at 1.
  destruct (axios_get u) as [resp|e] eqn:E; [lia|].
  unfold pageFindings at 1, scanPage. rewrite E. simpl. lia.
Qed.

(** X11.  Each visited URL that could not be fetched is counted in the
    summary: lowSeverity and the total are at least the number of visited
    URLs whose fetch failed, and a scan with such a URL scores at most 98. *)
Theorem unreachable_pages_are_counted (o : ScanOptions) (sc : Scanner)
    (Hnew : Scanner_new o = inr sc) :
  let r := run sc in
  let failed := Z.of_nat (length (filter fetch_fails (scannedUrls r))) in
  failed <= lowSeverity (summary r)
  /\ failed <= totalVulnerabilities (summary r)
  /\ (0 < failed -> securityScore (summary r) <= 98).
Proof.
  cbn zeta. destruct (run_scannedUrls sc) as (Eu & Ev & Es).
  destruct (run_state_exit o sc Hnew) as [_ _ _ _ Hf _ _].
  rewrite Eu, Es, Hf.
  pose proof (pageFindings_low_bound sc (visited (fst (run_state sc)))) as Hlow.
  set (F := flat_map (pageFindings sc) (visited (fst (run_state sc)))) in *.
  pose proof (buckets_bounded F) as Hb.
  rewrite securityScore_formula.
  unfold calculateSummary. cbn [lowSeverity totalVulnerabilities].
  rewrite severity_count_occurrences.
  repeat split; lia.
Qed.

End FailureFacts.

(** ** The scan controller *)

Section ControllerFacts.
Context {PF : Platform} {BE : Backend}.

(** Every call [m] adds to the trace satisfies [P]. *)
Definition emits {A : Type} (P : StorageCall -> Prop) (m : Effect A) : Prop :=
  forall t, Forall P t -> Forall P (fst (m t)).

Lemma emits_ret {A} P (a : A) : emits P (ret a).
Proof. intros t H. exact H. Qed.

Lemma emits_throw {A} P e : emits P (@throw A e).
Proof. intros t H. exact H. Qed.

Lemma emits_bind {A B} P (m : Effect A) (k : A -> Effect B) :
  emits P m -> (forall a, emits P (k a)) -> emits P (bind m k).
Proof.
  intros Hm Hk t H. unfold bind. specialize (Hm t H).
  destruct (m t) as [t' [e|a]]; [exact Hm|].
  apply Hk. exact Hm.
Qed.

Lemma emits_bind_ret {A B} P (a : A) (k : A -> Effect B) :
  emits P (k a) -> emits P (bind (ret a) k).
Proof. intros H t Ht. exact (H t Ht). Qed.

Lemma emits_try_catch {A} P (m : Effect A) handler :
  emits P m -> (forall e, emits P (handler e)) -> emits P (try_catch m handler).
Proof.
  intros Hm Hh t H. unfold try_catch. specialize (Hm t H).
  destruct (m t) as [t' [e|a]]; [|exact Hm].
  apply Hh. exact Hm.
Qed.

Lemma emits_await_storage (P : StorageCall -> Prop) c :
  P c -> emits P (await_storage c).
Proof.
  intros Hc t H. unfold await_storage. cbn [fst].
  apply Forall_app. split; [exact H|]. constructor; [exact Hc|constructor].
Qed.

Lemma emits_new_Date P k : emits P (new_Date k).
Proof. intros t H. exact H. Qed.

Lemma emits_storeVulnerabilities (P : StorageCall -> Prop) vs id :
  (forall v, In v vs -> P (CreateVulnerability (with_scanId v id))) ->
  emits P (storeVulnerabilities vs id).
Proof.
  induction vs as [|v vs IH]; intros Hall; simpl; [apply emits_ret|].
  apply emits_bind.
  - apply emits_await_storage. apply Hall. left. reflexivity.
  - intros _. apply IH. intros w Hw. apply Hall. right. exact Hw.
Qed.

(** A call of [doScan] for scan [id] of user [uid] with request [sd]. *)
Definition well_formed_call (id uid : Z) (sd : ScanData) (c : StorageCall)
    : Prop :=
  match c with
  | UpdateScan i update =>
      i = id
      /\ match upd_result update with
         | Some (ResultCompleted r) =>
             upd_status update = "completed"
             /\ 1 <= res_totalPages r <= 5
             /\ res_totalPages r <= Z.max 1 (sd_crawlLimit sd)
             /\ res_totalPages r = Z.of_nat (length (res_scannedUrls r))
             /\ res_vulnerabilitiesCount r
                = totalVulnerabilities (res_summary r)
         | Some (ResultFailed r) => upd_status update = "failed"
         | None => upd_status update = "running"
         end
  | GetCustomRulesByUserId u => u = uid /\ sd_includeCustomRules sd = true
  | CreateVulnerability v => scanId v = id
  | CreateSecurityEvent ev => ev_userId ev = uid
  | _ => False
  end.

Lemma runScan_pages o r :
  runScan o = inr r ->
  1 <= Z.of_nat (length (scannedUrls r)) <= Z.max 1 (opt_crawlLimit o)
  /\ Z.of_nat (length (vulnerabilities r))
     = totalVulnerabilities (summary r).
Proof.
  unfold runScan. destruct (Scanner_new o) as [msg|sc] eqn:Hnew;
    [discriminate|].
  intros E. injection E as <-.
  destruct (run_scannedUrls sc) as (-> & -> & ->).
  destruct (run_state_exit o sc Hnew) as [_ Hs Hb _ _ _ _].
  split; [|reflexivity]. split; [|exact Hb].
  destruct (visited (fst (run_state sc))); [discriminate|simpl; lia].
Qed.

(** X12.  Whatever the storage does, every call of [doScan] is for its own
    scan and user: stored findings carry the scan's identifier, the rules
    are queried only when the request includes custom rules, and a
    completed result reports between 1 and 5 pages, no more than the
    requested limit allows, and the number of findings of its summary. *)
Theorem doScan_calls_well_formed (id uid start : Z) (sd : ScanData) :
  Forall (well_formed_call id uid sd) (fst (doScan id sd uid start [])).
Proof.
  apply (emits_try_catch (well_formed_call id uid sd)); [| |constructor].
  - unfold doScan_try.
    apply emits_bind; [apply emits_await_storage; simpl; tauto|intros _].
    apply emits_bind.
    { destruct (sd_includeCustomRules sd) eqn:Ei; [|apply emits_ret].
      intros t H. unfold getCustomRulesByUserId. cbn [fst].
      apply Forall_app. split; [exact H|].
      constructor; [simpl; tauto|constructor]. }
    intros rules. unfold await_runScan.
    destruct (runScan (scanOptions sd rules)) as [msg|scanResult] eqn:Er.
    { intros t H. exact H. }
    destruct (runScan_pages _ _ Er) as [[H1 H2] H3].
    cbn [scanOptions opt_crawlLimit] in H2.
    apply emits_bind_ret.
    apply emits_bind.
    { apply emits_storeVulnerabilities. intros v _. reflexivity. }
    intros _.
    apply emits_bind; [apply emits_new_Date|intros t0].
    apply emits_bind; [apply emits_new_Date|intros t1].
    apply emits_bind; [apply emits_new_Date|intros t2].
    apply emits_bind; [|intros _; apply emits_await_storage; reflexivity].
    apply emits_await_storage. cbn [well_formed_call upd_result upd_status
      res_totalPages res_scannedUrls res_vulnerabilitiesCount res_summary].
    repeat split; try reflexivity; try assumption; lia.
  - intros e. unfold doScan_catch.
    apply emits_bind; [apply emits_new_Date|intros t0].
    apply emits_bind; [apply emits_new_Date|intros t1].
    apply emits_bind; [apply emits_new_Date|intros t2].
    apply emits_bind; [|intros _; apply emits_await_storage; reflexivity].
    apply emits_await_storage. simpl. tauto.
Qed.

(** The statuses written to the scan record, and the findings stored. *)
Definition statuses (t : Trace) : list string :=
  flat_map (fun c => match c with
                     | UpdateScan _ update => [upd_status update]
                     | _ => []
                     end) t.

Definition stored (t : Trace) : list InsertVulnerability :=
  flat_map (fun c => match c with
                     | CreateVulnerability v => [v]
                     | _ => []
                     end) t.

(** The error messages stored with the scan record. *)
Definition failures (t : Trace) : list string :=
  flat_map (fun c => match c with
                     | UpdateScan _ update =>
                         match upd_result update with
                         | Some (ResultFailed f) => [fail_error f]
                         | _ => []
                         end
                     | _ => []
                     end) t.

Lemma stored_findings_projections vs id :
  statuses (map (fun v => CreateVulnerability (with_scanId v id)) vs) = []
  /\ stored (map (fun v => CreateVulnerability (with_scanId v id)) vs)
     = map (fun v => with_scanId v id) vs
  /\ failures (map (fun v => CreateVulnerability (with_scanId v id)) vs) = [].
Proof.
  induction vs as [|v vs (IH1 & IH2 & IH3)]; simpl; [tauto|].
  rewrite IH2. tauto.
Qed.

Section Reliable.
Hypothesis Hreliable : forall t c, storage_throws t c = None.

Lemma await_storage_reliable c t :
  await_storage c t = (t ++ [c], inr tt).
Proof. unfold await_storage. rewrite Hreliable. reflexivity. Qed.

Lemma storeVulnerabilities_reliable vs id t :
  storeVulnerabilities vs id t
  = (t ++ map (fun v => CreateVulnerability (with_scanId v id)) vs, inr tt).
Proof.
  revert t. induction vs as [|v vs IH]; intros t; simpl.
  - rewrite app_nil_r. reflexivity.
  - unfold bind. rewrite await_storage_reliable, IH, <- app_assoc.
    reflexivity.
Qed.

Lemma statuses_stored_findings vs id :
  statuses (map (fun v => CreateVulnerability (with_scanId v id)) vs) = []
  /\ stored (map (fun v => CreateVulnerability (with_scanId v id)) vs)
     = map (fun v => with_scanId v id) vs.
Proof.
  induction vs as [|v vs [IH1 IH2]]; simpl; [tauto|].
  rewrite IH2. tauto.
Qed.

(** X13.  With a storage that does not throw, [doScan] ends normally and
    leaves the scan record completed when the seed parses and failed when
    it does not, the failed record carrying the constructor's message
    'Invalid URL format'; a completed scan has stored the findings of the
    scan, in order, under the scan's identifier and no error message, and
    a failed one has stored no finding. *)
Theorem doScan_with_reliable_storage (id uid start : Z) (sd : ScanData) :
  let out := doScan id sd uid start [] in
  let rules :=
    if sd_includeCustomRules sd
    then rules_of_user
           [UpdateScan id (mkUpdate "running" (Some start) None None)] uid
    else [] in
  snd out = inr tt
  /\ match runScan (scanOptions sd rules) with
     | inr r =>
         URL_parse (sd_url sd) <> None
         /\ statuses (fst out) = ["running"; "completed"]
         /\ stored (fst out)
            = map (fun v => with_scanId v id) (vulnerabilities r)
         /\ failures (fst out) = []
     | inl msg =>
         URL_parse (sd_url sd) = None
         /\ msg = "Invalid URL format"
         /\ statuses (fst out) = ["running"; "failed"]
         /\ stored (fst out) = []
         /\ failures (fst out) = ["Invalid URL format"]
     end.
Proof.
  cbn zeta. unfold doScan, try_catch, doScan_try, doScan_catch, bind, new_Date.
  rewrite await_storage_reliable. cbn [app].
  set (t1 := [UpdateScan id (mkUpdate "running" (Some start) None None)]).
  assert (Hparse : forall rules,
            match runScan (scanOptions sd rules) with
            | inl msg => URL_parse (sd_url sd) = None
                         /\ msg = "Invalid URL format"
            | inr _ => URL_parse (sd_url sd) <> None
            end).
  { intros rules. unfold runScan, Scanner_new. cbn [scanOptions opt_url].
    destruct (URL_parse (sd_url sd)); [discriminate|tauto]. }
  destruct (sd_includeCustomRules sd).
  - unfold getCustomRulesByUserId. rewrite Hreliable.
    specialize (Hparse (rules_of_user t1 uid)). unfold await_runScan.
    destruct (runScan (scanOptions sd (rules_of_user t1 uid))) as [msg|r].
    + destruct Hparse as [Hp ->]. unfold throw.
      rewrite !await_storage_reliable. cbn [fst snd].
      repeat split; try assumption; reflexivity.
    + unfold ret. rewrite storeVulnerabilities_reliable.
      rewrite !await_storage_reliable. cbn [fst snd].
      split; [reflexivity|]. split; [exact Hparse|].
      destruct (stored_findings_projections (vulnerabilities r) id)
        as (E1 & E2 & E3).
      unfold statuses, stored, failures in *.
      rewrite !flat_map_app, E1, E2, E3. simpl.
      rewrite ?app_nil_r. repeat split.
  - unfold ret. cbv beta iota.
    specialize (Hparse []). unfold await_runScan.
    destruct (runScan (scanOptions sd [])) as [msg|r].
    + destruct Hparse as [Hp ->]. unfold throw.
      rewrite !await_storage_reliable. cbn [fst snd].
      repeat split; try assumption; reflexivity.
    + unfold ret. rewrite storeVulnerabilities_reliable.
      rewrite !await_storage_reliable. cbn [fst snd].
      split; [reflexivity|]. split; [exact Hparse|].
      destruct (stored_findings_projections (vulnerabilities r) id)
        as (E1 & E2 & E3).
      unfold statuses, stored, failures in *.
      rewrite !flat_map_app, E1, E2, E3. simpl.
      rewrite ?app_nil_r. repeat split.
Qed.

End Reliable.

Section LostEvent.
Variable e : CaughtError.
Hypothesis Hlog :
  forall t c,
    storage_throws t c
    = match c with
      | CreateSecurityEvent ev =>
          if String.eqb (ev_type ev) "scan_completed" then Some e else None
      | _ => None
      end.

Lemma storeVulnerabilities_logged vs id t :
  storeVulnerabilities vs id t
  = (t ++ map (fun v => CreateVulnerability (with_scanId v id)) vs, inr tt).
Proof.
  revert t. induction vs as [|v vs IH]; intros t; simpl.
  - rewrite app_nil_r. reflexivity.
  - unfold bind, await_storage. rewrite Hlog, IH, <- app_assoc.
    reflexivity.
Qed.

(** X14.  The [catch] of [doScan] covers the calls made after the scan:
    when everything succeeds except the logging of the completion event,
    the scan record, already marked completed with its findings stored, is
    marked failed with that error's message. *)
Theorem lost_completion_event_marks_scan_failed
    (id uid start : Z) (sd : ScanData) (r : ScanResult)
    (Hscan :
       runScan
         (scanOptions sd
            (if sd_includeCustomRules sd
             then rules_of_user
                    [UpdateScan id (mkUpdate "running" (Some start) None None)]
                    uid
             else [])) = inr r) :
  let out := doScan id sd uid start [] in
  snd out = inr tt
  /\ statuses (fst out) = ["running"; "completed"; "failed"]
  /\ stored (fst out) = map (fun v => with_scanId v id) (vulnerabilities r)
  /\ failures (fst out)
     = [match err_message e with
        | Some m => m
        | None => "Unknown error occurred"
        end].
Proof.
  cbn zeta.
  assert (Hout : exists T,
            doScan id sd uid start [] = (T, inr tt)
            /\ statuses T = ["running"; "completed"; "failed"]
            /\ stored T
               = map (fun v => with_scanId v id) (vulnerabilities r)
            /\ failures T
               = [match err_message e with
                  | Some m => m
                  | None => "Unknown error occurred"
                  end]).
  { destruct (stored_findings_projections (vulnerabilities r) id)
      as (E1 & E2 & E3).
    unfold doScan, try_catch, doScan_try, doScan_catch, bind, new_Date.
    unfold await_storage at 1. rewrite Hlog. cbv beta iota. cbn [app].
    destruct (sd_includeCustomRules sd).
    - unfold getCustomRulesByUserId. rewrite Hlog. cbv beta iota.
      unfold await_runScan. rewrite Hscan. unfold ret.
      rewrite storeVulnerabilities_logged. cbv beta iota.
      unfold await_storage at 1. rewrite Hlog. cbv beta iota.
      unfold await_storage at 1. rewrite Hlog.
      cbn [ev_type]. rewrite String.eqb_refl. cbv beta iota.
      unfold await_storage at 1. rewrite Hlog. cbv beta iota.
      unfold await_storage at 1. rewrite Hlog.
      cbn [ev_type]. cbn [String.eqb Ascii.eqb Bool.eqb]. cbv beta iota.
      eexists. split; [reflexivity|].
      unfold statuses, stored, failures in *.
      rewrite !flat_map_app, E1, E2, E3. simpl. rewrite ?app_nil_r.
      repeat split.
    - unfold ret. cbv beta iota.
      unfold await_runScan. rewrite Hscan. unfold ret.
      rewrite storeVulnerabilities_logged. cbv beta iota.
      unfold await_storage at 1. rewrite Hlog. cbv beta iota.
      unfold await_storage at 1. rewrite Hlog.
      cbn [ev_type]. rewrite String.eqb_refl. cbv beta iota.
      unfold await_storage at 1. rewrite Hlog. cbv beta iota.
      unfold await_storage at 1. rewrite Hlog.
      cbn [ev_type]. cbn [String.eqb Ascii.eqb Bool.eqb]. cbv beta iota.
      eexists. split; [reflexivity|].
      unfold statuses, stored, failures in *.
      rewrite !flat_map_app, E1, E2, E3. simpl. rewrite ?app_nil_r.
      repeat split. }
  destruct Hout as (T & -> & H1 & H2 & H3). cbn [fst snd].
  repeat split; assumption.
Qed.

End LostEvent.

End ControllerFacts.

(** ** The scan form and the score shown to the user *)

Section ClientFacts.

Lemma Math_round_inject_Z z : Math_round (inject_Z z) = z.
Proof.
  unfold Math_round, Qfloor, Qplus, inject_Z. simpl.
  symmetry. apply (Z.div_unique _ _ z 1); lia.
Qed.

(** X15.  Whatever crawl limit the form offers, the request passes the
    server's check for a positive integer and [doScan] hands the scanner a
    limit of 5: the choice does not reach the crawl. *)
Theorem form_crawl_limit_is_capped (choice : string)
    (Hchoice : In choice crawlLimitChoices) :
  exists n,
    parsedCrawlLimit choice = Some n
    /\ 0 < n
    /\ forall u level auth incl rules,
         opt_crawlLimit (scanOptions (mkScanData u level n auth incl) rules)
         = 5.
Proof.
  unfold crawlLimitChoices in Hchoice. simpl in Hchoice.
  destruct Hchoice as [<-|[<-|[<-|[<-|[]]]]];
    eexists; (split; [vm_compute; reflexivity|]);
    (split; [reflexivity|]); intros; reflexivity.
Qed.

Lemma row_count_fields s rows :
  row_count s rows = severity_count s (map row_fields rows).
Proof.
  unfold row_count, severity_count. f_equal.
  induction rows as [|v rows IH]; simpl; [reflexivity|].
  destruct (String.eqb (severity (row_fields v)) s); simpl; congruence.
Qed.

(** X16.  Without a stored score the detail page computes, from the rows
    of findings it received, the score the scanner gives those findings
    in its summary. *)
Theorem detail_score_agrees_with_scanner
    (rows : list Vulnerability) (scan : option ClientScan)
    (Hnone : stored_score scan = None) :
  detail_calculateSecurityScore (Some rows) scan
  = securityScore (calculateSummary (map row_fields rows)).
Proof.
  unfold detail_calculateSecurityScore, calculateSummary. rewrite Hnone.
  cbn zeta. cbn [securityScore].
  rewrite !row_count_fields, !severity_count_occurrences,
    ?Math_round_inject_Z.
  set (vs := map row_fields rows).
  destruct (Z.eqb_spec (Z.of_nat (occurrences "high" vs) * 10
                        + Z.of_nat (occurrences "medium" vs) * 5
                        + Z.of_nat (occurrences "low" vs) * 2) 0); lia.
Qed.

(** X17.  Without a stored score, and from the counts of the same
    findings, the PDF report never shows a lower score than the detail
    page, and both lie between 0 and 100; they agree only when both are
    100 or both are 0. *)
Theorem pdf_score_at_least_detail_score
    (rows : list Vulnerability) (result : ClientScanResult)
    (Hnone : cr_securityScore result = None)
    (Hhigh : cr_highSeverity result = Some (row_count "high" rows))
    (Hmedium : cr_mediumSeverity result = Some (row_count "medium" rows))
    (Hlow : cr_lowSeverity result = Some (row_count "low" rows)) :
  let scan := Some (mkClientScan (Some result)) in
  let detail := detail_calculateSecurityScore (Some rows) scan in
  let pdf := pdf_calculateSecurityScore scan in
  0 <= detail <= pdf /\ pdf <= 100
  /\ (detail = pdf -> (pdf = 100 \/ pdf = 0)).
Proof.
  cbn zeta.
  unfold detail_calculateSecurityScore, pdf_calculateSecurityScore,
    stored_score.
  cbn [cs_result]. rewrite Hnone, Hhigh, Hmedium, Hlow.
  cbn zeta. cbn [or_zero].
  rewrite !Math_round_inject_Z.
  set (h := row_count "high" rows).
  set (m := row_count "medium" rows).
  set (l := row_count "low" rows).
  assert (0 <= h /\ 0 <= m /\ 0 <= l) by (unfold h, m, l, row_count; lia).
  destruct (Z.eqb_spec (h * 10 + m * 5 + l * 2) 0);
    destruct (Z.eqb_spec (h * 5 + m * 3 + l * 1) 0); lia.
Qed.

End ClientFacts.

(** ** Raising the crawl limit *)

Section Budget.
Context {PF : Platform}.

Definition options_with_limit (n : Z) (o : ScanOptions) : ScanOptions :=
  mkOptions (opt_url o) (opt_scanLevel o) n (opt_useAuthentication o)
    (opt_includeCustomRules o) (opt_customRules o).

(** The scanner with other options and another page budget. *)
Definition rebudget (o' : ScanOptions) (m : Z) (sc : Scanner) : Scanner :=
  mkScanner o' (visited sc) (queue sc) m (baseUrl sc) (customRules sc)
    (scanLevel sc) (pushed sc).

Variables (o' : ScanOptions) (m' : Z).

Let raised (st : LoopState) : LoopState := (rebudget o' m' (fst st), snd st).

Lemma extractLinks_rebudget sc pageUrl html :
  extractLinks (rebudget o' m' sc) pageUrl html
  = rebudget o' m' (extractLinks sc pageUrl html).
Proof.
  unfold extractLinks.
  destruct (cheerio_hrefs html) as [links|]; [|reflexivity].
  revert sc. induction links as [|l links IH]; intros sc; simpl;
    [reflexivity|].
  rewrite <- IH. f_equal.
  unfold extractLinks_step.
  destruct (skipped_href l); [reflexivity|].
  destruct (URL_href l pageUrl); [|reflexivity].
  cbn [rebudget baseUrl visited queue].
  match goal with |- context [if ?c then _ else _] => destruct c end;
    reflexivity.
Qed.

Lemma scanPage_rebudget sc vs u :
  opt_includeCustomRules o' = opt_includeCustomRules (options sc) ->
  scanPage (rebudget o' m' sc) vs u = raised (scanPage sc vs u).
Proof.
  intros Hi. unfold scanPage, raised.
  destruct (axios_get u) as [resp|e]; [|reflexivity].
  cbn [rebudget scanLevel options customRules].
  destruct (detectVulnerabilities u resp (scanLevel sc)) as [d|e];
    [|reflexivity].
  cbn [fst snd]. rewrite Hi. f_equal.
  destruct (negb (String.eqb (scanLevel sc) "quick")); [|reflexivity].
  apply extractLinks_rebudget.
Qed.

Lemma loop_body_rebudget st :
  opt_includeCustomRules o' = opt_includeCustomRules (options (fst st)) ->
  loop_body (raised st) = raised (loop_body st).
Proof.
  destruct st as [[o0 v q m b rs l p] vs]. unfold raised.
  cbn [fst snd options]. intros Hi. unfold loop_body.
  cbn [rebudget queue visited set_queue set_visited options maxPages
       baseUrl customRules scanLevel pushed].
  destruct q as [|u rest]; [reflexivity|].
  destruct (includes v u); [reflexivity|].
  match goal with
  | |- _ = (rebudget _ _ (fst (scanPage ?s vs u)), _) =>
      exact (scanPage_rebudget s vs u Hi)
  end.
Qed.

(** A run on the larger budget passes through the state in which the run
    on the smaller budget ends. *)
Lemma run_loop_rebudget st :
  opt_includeCustomRules o' = opt_includeCustomRules (options (fst st)) ->
  maxPages (fst st) <= m' ->
  run_loop (raised st) = run_loop (raised (run_loop st)).
Proof.
  remember (loop_measure st) as k eqn:Ek. revert st Ek.
  induction (well_founded_lexprod k) as [k _ IH].
  intros st -> Hi Hm.
  rewrite (run_loop_while st).
  destruct (loop_cond st) eqn:Ec; [|reflexivity].
  rewrite (run_loop_while (raised st)).
  assert (Ec' : loop_cond (raised st) = true).
  { unfold loop_cond, raised in *. cbn [fst rebudget queue visited maxPages].
    apply andb_prop in Ec. destruct Ec as [E1 E2]. rewrite E1. simpl.
    apply Z.ltb_lt in E2. apply Z.ltb_lt. lia. }
  rewrite Ec', loop_body_rebudget by exact Hi.
  destruct st as [s vs].
  pose proof (loop_body_config s vs) as (Hmax & _ & _ & _ & Hopt).
  apply (IH (loop_measure (loop_body (s, vs)))).
  - apply loop_body_decreases. exact Ec.
  - reflexivity.
  - rewrite Hopt. exact Hi.
  - rewrite Hmax. exact Hm.
Qed.

End Budget.

Section BudgetFacts.
Context {PF : Platform}.

(** The visited list and the findings only grow during a run. *)
Lemma loop_body_extends st :
  exists urls findings,
    visited (fst (loop_body st)) = visited (fst st) ++ urls
    /\ snd (loop_body st) = snd st ++ findings.
Proof.
  destruct st as [[o v q m b rs l p] vs]. unfold loop_body.
  cbn [fst snd queue set_queue set_visited visited options maxPages baseUrl
       customRules scanLevel pushed].
  destruct q as [|u rest];
    [exists [], []; rewrite !app_nil_r; split; reflexivity|].
  destruct (includes v u) eqn:E;
    [exists [], []; rewrite !app_nil_r; split; reflexivity|].
  match goal with |- context [scanPage ?s vs u] =>
    pose proof (scanPage_frame s vs u) as F;
    pose proof (scanPage_findings s s vs u) as G end.
  simpl in F. destruct F as (-> & _).
  rewrite G by (unfold same_config; tauto).
  unfold Set_add. rewrite E. eexists. eexists. split; reflexivity.
Qed.

Lemma run_loop_extends st :
  exists urls findings,
    visited (fst (run_loop st)) = visited (fst st) ++ urls
    /\ snd (run_loop st) = snd st ++ findings.
Proof.
  apply (run_loop_invariant
           (fun s => exists urls findings,
                       visited (fst s) = visited (fst st) ++ urls
                       /\ snd s = snd st ++ findings)).
  - intros s (us & fs & E1 & E2) _.
    destruct (loop_body_extends s) as (us' & fs' & E3 & E4).
    exists (us ++ us'), (fs ++ fs').
    rewrite E3, E4, E1, E2, !app_assoc. split; reflexivity.
  - exists [], []. rewrite !app_nil_r. split; reflexivity.
Qed.

(** X18.  Raising the crawl limit only adds to a scan: the URLs visited
    and the findings reported under the smaller limit are the beginning
    of those under the larger one. *)
Theorem larger_limit_extends_scan (o : ScanOptions) (n n' : Z)
    (sc : Scanner)
    (Hle : n <= n')
    (Hnew : Scanner_new (options_with_limit n o) = inr sc) :
  exists sc' urls findings,
    Scanner_new (options_with_limit n' o) = inr sc'
    /\ scannedUrls (run sc') = scannedUrls (run sc) ++ urls
    /\ vulnerabilities (run sc') = vulnerabilities (run sc) ++ findings.
Proof.
  destruct (Scanner_new_inr _ _ Hnew) as (p & Hp & Hsc).
  cbn [options_with_limit opt_url opt_crawlLimit opt_customRules
       opt_scanLevel] in Hp, Hsc.
  assert (Hnew' : Scanner_new (options_with_limit n' o)
                  = inr (rebudget (options_with_limit n' o) n' sc)).
  { unfold Scanner_new. cbn [options_with_limit opt_url]. rewrite Hp, Hsc.
    reflexivity. }
  destruct (run_scannedUrls sc) as (-> & -> & _).
  destruct (run_scannedUrls (rebudget (options_with_limit n' o) n' sc))
    as (E1 & E2 & _).
  set (m := Z.max 1 n). set (m' := Z.max 1 n').
  set (sc0 := if maxPages sc <=? 0 then set_maxPages sc 1 else sc).
  assert (H0 : run_state sc = run_loop (sc0, [])) by reflexivity.
  assert (H1 : run_state (rebudget (options_with_limit n' o) n' sc)
               = run_loop (rebudget (options_with_limit n' o) m' sc0, [])).
  { unfold run_state, sc0, m'. rewrite Hsc.
    cbn [rebudget maxPages].
    destruct (Z.leb_spec n' 0); destruct (Z.leb_spec n 0);
      cbn [set_maxPages rebudget options visited queue maxPages baseUrl
           customRules scanLevel pushed];
      rewrite ?Z.max_l, ?Z.max_r by lia; reflexivity. }
  assert (Hm0 : maxPages sc0 <= m').
  { unfold sc0, m'. rewrite Hsc. cbn [maxPages].
    destruct (Z.leb_spec n 0); simpl; lia. }
  assert (Hi0 : opt_includeCustomRules (options_with_limit n' o)
                = opt_includeCustomRules (options (fst (sc0, @nil InsertVulnerability)))).
  { unfold sc0. rewrite Hsc. cbn [maxPages fst].
    destruct (n <=? 0); reflexivity. }
  pose proof (run_loop_rebudget (options_with_limit n' o) m'
                (sc0, []) Hi0 Hm0) as Hfactor.
  cbn [fst snd] in Hfactor.
  destruct (run_loop_extends
              (rebudget (options_with_limit n' o) m'
                 (fst (run_loop (sc0, []))), snd (run_loop (sc0, []))))
    as (urls & findings & Eu & Ef).
  cbn [fst snd rebudget visited] in Eu, Ef.
  exists (rebudget (options_with_limit n' o) n' sc), urls, findings.
  split; [exact Hnew'|].
  rewrite E1, E2, H1, H0, Hfactor. split; assumption.
Qed.

End BudgetFacts.

(** ** The further theorems at work on the example web *)

(** A standard scan of the example web: every visited URL but the seed
    starts with the base URL. *)
Lemma visited_urls_start_with_base_witness :
  @Scanner_new (webOf demoSite) (demoOptions "standard" 5)
  = inr (demoScanner "standard" 5)
  /\ exists p,
       @URL_parse (webOf demoSite) "http://example.com/" = Some p
       /\ forall u,
            In u (scannedUrls (@run (webOf demoSite) (demoScanner "standard" 5))) ->
            u = "http://example.com/"
            \/ startsWith u (String.append (protocol p)
                               (String.append "//" (host p))) = true.
Proof.
  split; [reflexivity|].
  exact (@visited_urls_start_with_base (webOf demoSite)
           (demoOptions "standard" 5) (demoScanner "standard" 5) eq_refl).
Defined.

(** A budget of two on the example web leaves one URL queued. *)
Lemma visited_in_discovery_order_witness :
  let sc := demoScanner "standard" 2 in
  @Scanner_new (webOf demoSite) (demoOptions "standard" 2) = inr sc
  /\ pushed (fst (@run_state (webOf demoSite) sc))
     = scannedUrls (@run (webOf demoSite) sc)
       ++ queue (fst (@run_state (webOf demoSite) sc)).
Proof.
  cbn zeta. split; [reflexivity|].
  exact (proj1 (@visited_in_discovery_order (webOf demoSite)
                  (demoOptions "standard" 2) (demoScanner "standard" 2)
                  eq_refl)).
Defined.

(** A budget of five on the example web, which has four URLs. *)
Lemma budget_used_or_frontier_empty_witness :
  let sc := demoScanner "standard" 5 in
  @Scanner_new (webOf demoSite) (demoOptions "standard" 5) = inr sc
  /\ (Z.of_nat (length (scannedUrls (@run (webOf demoSite) sc))) = Z.max 1 5
      \/ (queue (fst (@run_state (webOf demoSite) sc)) = []
          /\ scannedUrls (@run (webOf demoSite) sc)
             = pushed (fst (@run_state (webOf demoSite) sc)))).
Proof.
  cbn zeta. split; [reflexivity|].
  exact (@budget_used_or_frontier_empty (webOf demoSite)
           (demoOptions "standard" 5) (demoScanner "standard" 5) eq_refl).
Defined.

(** The example rules, supplied but not included. *)
Lemma rules_ignored_when_not_included_witness :
  let o := mkOptions "http://example.com/" "standard" 5 false false None in
  opt_includeCustomRules o = false
  /\ @runScan (webOf demoSite) (options_with_rules demoRules o)
     = @runScan (webOf demoSite) o.
Proof.
  cbn zeta. split; [reflexivity|].
  exact (@rules_ignored_when_not_included (webOf demoSite)
           (mkOptions "http://example.com/" "standard" 5 false false None)
           demoRules eq_refl).
Defined.

(** A seed that cannot be reached. *)
Lemma unreachable_pages_are_counted_witness :
  let sc := demoScanner "standard" 5 in
  @Scanner_new (webOf []) (demoOptions "standard" 5) = inr sc
  /\ Z.of_nat (length (filter (@fetch_fails (webOf []))
                         (scannedUrls (@run (webOf []) sc))))
     <= lowSeverity (summary (@run (webOf []) sc)).
Proof.
  cbn zeta. split; [reflexivity|].
  exact (proj1 (@unreachable_pages_are_counted (webOf [])
                  (demoOptions "standard" 5) (demoScanner "standard" 5)
                  eq_refl)).
Defined.

(** [doScan] with a storage that never throws, on the example web and on
    a seed that is not a URL. *)
Lemma doScan_with_reliable_storage_witness :
  let bad := mkScanData "example dot com" "standard" 50 false false in
  (forall t c, @storage_throws reliableBackend t c = None)
  /\ snd (@doScan (webOf demoSite) reliableBackend 7 (demoScanData true) 1 0 [])
     = inr tt
  /\ statuses
       (fst (@doScan (webOf demoSite) reliableBackend 7 (demoScanData true)
               1 0 []))
     = ["running"; "completed"]
  /\ statuses (fst (@doScan (webOf demoSite) reliableBackend 8 bad 1 0 []))
     = ["running"; "failed"]
  /\ failures (fst (@doScan (webOf demoSite) reliableBackend 8 bad 1 0 []))
     = ["Invalid URL format"].
Proof.
  cbn zeta. split; [intros t c; reflexivity|].
  pose proof (@doScan_with_reliable_storage (webOf demoSite) reliableBackend
                (fun _ _ => eq_refl) 7 1 0 (demoScanData true)) as W.
  pose proof (@doScan_with_reliable_storage (webOf demoSite) reliableBackend
                (fun _ _ => eq_refl) 8 1 0
                (mkScanData "example dot com" "standard" 50 false false))
    as V.
  split; [exact (proj1 W)|].
  split; [exact (proj1 (proj2 (proj2 W)))|].
  split; [exact (proj1 (proj2 (proj2 (proj2 V))))
         |exact (proj2 (proj2 (proj2 (proj2 (proj2 V)))))].
Defined.

(** [doScan] on the example web, custom rules included, when the
    completion event cannot be logged. *)
Lemma lost_completion_event_marks_scan_failed_witness :
  let sd := demoScanData true in
  let r := @run (webOf demoSite)
             (mkScanner (@scanOptions sd demoRules) []
                ["http://example.com/"] 5 "http://example.com" demoRules
                "standard" ["http://example.com/"]) in
  @runScan (webOf demoSite) (scanOptions sd demoRules) = inr r
  /\ statuses (fst (@doScan (webOf demoSite) lossyBackend 7 sd 1 0 []))
     = ["running"; "completed"; "failed"]
  /\ failures (fst (@doScan (webOf demoSite) lossyBackend 7 sd 1 0 []))
     = ["connection lost"].
Proof.
  cbn zeta. split; [reflexivity|].
  pose proof (@lost_completion_event_marks_scan_failed (webOf demoSite)
                lossyBackend
                (mkCaught (Some "connection lost") None None)
                (fun _ _ => eq_refl) 7 1 0 (demoScanData true) _ eq_refl)
    as W.
  split; [exact (proj1 (proj2 W))|exact (proj2 (proj2 (proj2 W)))].
Defined.

(** The form's unlimited choice. *)
Lemma form_crawl_limit_is_capped_witness :
  In "unlimited" crawlLimitChoices
  /\ exists n, parsedCrawlLimit "unlimited" = Some n /\ 0 < n
       /\ forall u level auth incl rules,
            opt_crawlLimit (scanOptions (mkScanData u level n auth incl) rules)
            = 5.
Proof.
  assert (H : In "unlimited" crawlLimitChoices)
    by (right; right; right; left; reflexivity).
  split; [exact H|].
  exact (form_crawl_limit_is_capped "unlimited" H).
Defined.

(** The detail page on four stored findings, no score stored. *)
Lemma detail_score_agrees_with_scanner_witness :
  let rows := map (fun f => mkRow 1 f None None) sampleFindings in
  stored_score None = None
  /\ detail_calculateSecurityScore (Some rows) None
     = securityScore (calculateSummary (map row_fields rows)).
Proof.
  cbn zeta. split; [reflexivity|].
  exact (detail_score_agrees_with_scanner
           (map (fun f => mkRow 1 f None None) sampleFindings) None eq_refl).
Defined.

(** The PDF report and the detail page on the same four findings. *)
Lemma pdf_score_at_least_detail_score_witness :
  let rows := map (fun f => mkRow 1 f None None) sampleFindings in
  let result := mkClientResult None (Some 1) (Some 1) (Some 1) in
  let scan := Some (mkClientScan (Some result)) in
  cr_securityScore result = None
  /\ cr_highSeverity result = Some (row_count "high" rows)
  /\ cr_mediumSeverity result = Some (row_count "medium" rows)
  /\ cr_lowSeverity result = Some (row_count "low" rows)
  /\ detail_calculateSecurityScore (Some rows) scan
     <= pdf_calculateSecurityScore scan.
Proof.
  cbn zeta. repeat (split; [reflexivity|]).
  exact (proj2 (proj1
    (pdf_score_at_least_detail_score
       (map (fun f => mkRow 1 f None None) sampleFindings)
       (mkClientResult None (Some 1) (Some 1) (Some 1))
       eq_refl eq_refl eq_refl eq_refl))).
Defined.

(** Limits of two and of five on the example web. *)
Lemma larger_limit_extends_scan_witness :
  2 <= 5
  /\ @Scanner_new (webOf demoSite)
       (options_with_limit 2 (demoOptions "standard" 2))
     = inr (demoScanner "standard" 2)
  /\ exists sc' urls findings,
       @Scanner_new (webOf demoSite)
         (options_with_limit 5 (demoOptions "standard" 2)) = inr sc'
       /\ scannedUrls (@run (webOf demoSite) sc')
          = scannedUrls (@run (webOf demoSite) (demoScanner "standard" 2))
            ++ urls
       /\ vulnerabilities (@run (webOf demoSite) sc')
          = vulnerabilities (@run (webOf demoSite) (demoScanner "standard" 2))
            ++ findings.
Proof.
  assert (Hle : 2 <= 5) by discriminate.
  split; [exact Hle|]. split; [reflexivity|].
  exact (@larger_limit_extends_scan (webOf demoSite)
           (demoOptions "standard" 2) 2 5 (demoScanner "standard" 2)
           Hle eq_refl).
Defined.

(** ** The request handlers *)

Section HandlerFacts.
Context {BE : Backend}.

Definition scanHandlers : list (Request -> Effect HttpResponse) :=
  [getScan; getScanVulnerabilities; deleteScan].

Definition allHandlers : list (Request -> Effect HttpResponse) :=
  [getScan; getScanVulnerabilities; deleteScan; deleteAllScans; getUserScans].

(** The scan [params_id] names exists and belongs to the requester. *)
Definition owns (req : Request) (t : Trace) (scanId : Z) (scan : Scan) : Prop :=
  isAuthenticated req = true
  /\ params_id req = Some scanId
  /\ scan_of_id t scanId = Some scan
  /\ scan_userId scan = user_id (user req).

(** What [with_owned_scan] does, by the outcome of its checks. *)
Lemma with_owned_scan_cases req action t :
  (with_owned_scan req action t = (t, inr (mkResponse 401 (Message "Unauthorized")))
   /\ isAuthenticated req = false)
  \/ (with_owned_scan req action t
      = (t, inr (mkResponse 400 (Message "Invalid scan ID")))
      /\ params_id req = None)
  \/ (exists scanId,
        params_id req = Some scanId /\ isAuthenticated req = true
        /\ let t1 := t ++ [GetScan scanId] in
           (exists e, with_owned_scan req action t = (t1, inl e))
           \/ with_owned_scan req action t
              = (t1, inr (mkResponse 404 (Message "Scan not found")))
           \/ (exists scan, scan_of_id t scanId = Some scan
                 /\ scan_userId scan <> user_id (user req)
                 /\ with_owned_scan req action t
                    = (t1, inr (mkResponse 403
                                  (Message "Unauthorized access to scan"))))
           \/ (exists scan, owns req t scanId scan
                 /\ with_owned_scan req action t = action scanId scan t1)).
Proof.
  unfold with_owned_scan, owns.
  destruct (isAuthenticated req) eqn:Ea; [|left; split; reflexivity].
  right. cbn [negb].
  destruct (params_id req) as [scanId|]; [|left; split; reflexivity].
  right. exists scanId. split; [reflexivity|]. split; [reflexivity|].
  cbn zeta. unfold bind, await_query.
  destruct (storage_throws t (GetScan scanId)) as [e|];
    [left; exists e; reflexivity|].
  right.
  destruct (scan_of_id t scanId) as [scan|]; [|left; reflexivity].
  right.
  destruct (Z.eqb_spec (scan_userId scan) (user_id (user req))) as [E|E];
    cbn [negb].
  - right. exists scan. tauto.
  - left. exists scan. tauto.
Qed.

(** X19.  [getScan], [getScanVulnerabilities] and [deleteScan] answer 200
    only to an authenticated requester who owns the scan named in the
    request. *)
Theorem scans_are_served_to_their_owner_only
    (handler : Request -> Effect HttpResponse) (req : Request) (t t' : Trace)
    (resp : HttpResponse)
    (Hhandler : In handler scanHandlers)
    (Hrun : handler req t = (t', inr resp))
    (Hok : res_status resp = 200) :
  exists scanId scan, owns req t scanId scan.
Proof.
  assert (Hgen : forall action,
            try_catch (with_owned_scan req action) internal_error t
            = (t', inr resp) ->
            exists scanId scan, owns req t scanId scan).
  { intros action. unfold try_catch.
    destruct (with_owned_scan_cases req action t)
      as [[E _]|[[E _]|(scanId & _ & _ & H)]].
    - rewrite E. intros H. injection H as _ <-. discriminate Hok.
    - rewrite E. intros H. injection H as _ <-. discriminate Hok.
    - cbn zeta in H.
      destruct H as [[e E]|[E|[(scan & _ & _ & E)|(scan & Ho & _)]]].
      + rewrite E. unfold internal_error, respond, ret.
        intros H. injection H as _ <-. discriminate Hok.
      + rewrite E. intros H. injection H as _ <-. discriminate Hok.
      + rewrite E. intros H. injection H as _ <-. discriminate Hok.
      + intros _. exists scanId, scan. exact Ho. }
  unfold scanHandlers in Hhandler. simpl in Hhandler.
  destruct Hhandler as [<-|[<-|[<-|[]]]];
    unfold getScan, getScanVulnerabilities, deleteScan in Hrun;
    exact (Hgen _ Hrun).
Qed.

(** X20.  Whatever the storage does, [deleteScan] asks it to delete at
    most the scan named in the request, and only for its owner. *)
Theorem deleteScan_deletes_owned_scan_only (req : Request) (t : Trace) :
  exists calls,
    fst (deleteScan req t) = t ++ calls
    /\ forall i, In (DeleteScan i) calls ->
         exists scan, owns req t i scan.
Proof.
  unfold deleteScan, try_catch.
  match goal with |- context [with_owned_scan req ?a t] =>
    destruct (with_owned_scan_cases req a t)
      as [[E _]|[[E _]|(scanId & Hp & Ha & H)]] end.
  - rewrite E. exists []. rewrite app_nil_r. split; [reflexivity|].
    intros i [].
  - rewrite E. exists []. rewrite app_nil_r. split; [reflexivity|].
    intros i [].
  - cbn zeta in H.
    destruct H as [[e E]|[E|[(scan & _ & _ & E)|(scan & Ho & E)]]];
      rewrite E.
    + exists [GetScan scanId]. split; [reflexivity|].
      intros i [Hi|[]]. discriminate Hi.
    + exists [GetScan scanId]. split; [reflexivity|].
      intros i [Hi|[]]. discriminate Hi.
    + exists [GetScan scanId]. split; [reflexivity|].
      intros i [Hi|[]]. discriminate Hi.
    + unfold bind, await_storage, respond, ret, internal_error.
      destruct (storage_throws (t ++ [GetScan scanId]) (DeleteScan scanId)).
      * exists [GetScan scanId; DeleteScan scanId]. cbn [fst].
        rewrite <- app_assoc. split; [reflexivity|].
        intros i [Hi|[Hi|[]]]; [discriminate Hi|].
        injection Hi as <-. exists scan. exact Ho.
      * match goal with |- context [storage_throws ?a ?b] =>
          destruct (storage_throws a b) end;
          (eexists; cbn [fst]; rewrite <- !app_assoc;
           split; [reflexivity|]);
          (intros i [Hi|[Hi|[Hi|[]]]];
            [discriminate Hi| |discriminate Hi]);
          injection Hi as <-; exists scan; exact Ho.
Qed.

(** X21.  An unauthenticated request is answered 401 by every handler
    before any call on the storage. *)
Theorem unauthenticated_requests_are_refused
    (handler : Request -> Effect HttpResponse) (req : Request) (t : Trace)
    (Hhandler : In handler allHandlers)
    (Hanon : isAuthenticated req = false) :
  handler req t = (t, inr (mkResponse 401 (Message "Unauthorized"))).
Proof.
  unfold allHandlers in Hhandler. simpl in Hhandler.
  destruct Hhandler as [<-|[<-|[<-|[<-|[<-|[]]]]]];
    unfold getScan, getScanVulnerabilities, deleteScan, deleteAllScans,
      getUserScans, try_catch, with_owned_scan;
    rewrite Hanon; reflexivity.
Qed.

(** None of the calls, made in this order after [t], throws. *)
Definition no_throw (t : Trace) (calls : list StorageCall) : Prop :=
  forall k c, nth_error calls k = Some c ->
    storage_throws (t ++ firstn k calls) c = None.

(** The [k]-th of the calls made after [t] throws. *)
Definition throws_at (t : Trace) (calls : list StorageCall) (k : nat) : Prop :=
  exists c e, nth_error calls k = Some c
    /\ storage_throws (t ++ firstn k calls) c = Some e.

(** [m] returns a value satisfying [Q] when none of its calls throws, and
    throws what its last call threw otherwise. *)
Definition runs_cleanly {A : Type} (Q : A -> Prop) (m : Effect A) : Prop :=
  forall t,
    match m t with
    | (t', inr a) => Q a /\ exists calls, t' = t ++ calls /\ no_throw t calls
    | (t', inl e) =>
        exists pre c, t' = t ++ pre ++ [c] /\ no_throw t pre
          /\ storage_throws (t ++ pre) c = Some e
    end.

Lemma no_throw_nil t : no_throw t [].
Proof. intros k c H. destruct k; discriminate H. Qed.

Lemma no_throw_app t l1 l2 :
  no_throw t l1 -> no_throw (t ++ l1) l2 -> no_throw t (l1 ++ l2).
Proof.
  intros H1 H2 k c Hk. rewrite firstn_app.
  destruct (Nat.lt_ge_cases k (length l1)) as [Hlt|Hge].
  - rewrite nth_error_app1 in Hk by exact Hlt.
    replace (k - length l1)%nat with 0%nat by lia.
    simpl. rewrite app_nil_r. apply H1. exact Hk.
  - rewrite nth_error_app2 in Hk by exact Hge.
    rewrite firstn_all2 by exact Hge. rewrite app_assoc.
    apply H2. exact Hk.
Qed.

Lemma runs_cleanly_ret {A} (Q : A -> Prop) a : Q a -> runs_cleanly Q (ret a).
Proof.
  intros H t. cbn. split; [exact H|]. exists [].
  rewrite app_nil_r. split; [reflexivity|apply no_throw_nil].
Qed.

Lemma runs_cleanly_query {A} (Q : A -> Prop) c (value : Trace -> A) :
  (forall t, Q (value t)) -> runs_cleanly Q (await_query c value).
Proof.
  intros H t. unfold await_query.
  destruct (storage_throws t c) as [e|] eqn:E.
  - exists [], c. rewrite app_nil_r.
    split; [reflexivity|]. split; [apply no_throw_nil|exact E].
  - split; [apply H|]. exists [c]. split; [reflexivity|].
    intros k d Hk. destruct k as [|k]; simpl in Hk.
    + injection Hk as <-. simpl. rewrite app_nil_r. exact E.
    + destruct k; discriminate Hk.
Qed.

Lemma runs_cleanly_storage (Q : unit -> Prop) c :
  Q tt -> runs_cleanly Q (await_storage c).
Proof.
  intros H t. unfold await_storage.
  destruct (storage_throws t c) as [e|] eqn:E.
  - exists [], c. rewrite app_nil_r.
    split; [reflexivity|]. split; [apply no_throw_nil|exact E].
  - split; [exact H|]. exists [c]. split; [reflexivity|].
    intros k d Hk. destruct k as [|k]; simpl in Hk.
    + injection Hk as <-. simpl. rewrite app_nil_r. exact E.
    + destruct k; discriminate Hk.
Qed.

Lemma runs_cleanly_bind {A B} (Q1 : A -> Prop) (Q2 : B -> Prop)
    (m : Effect A) (k : A -> Effect B) :
  runs_cleanly Q1 m -> (forall a, Q1 a -> runs_cleanly Q2 (k a)) ->
  runs_cleanly Q2 (bind m k).
Proof.
  intros Hm Hk t. unfold bind. specialize (Hm t).
  destruct (m t) as [t1 [e|a]]; [exact Hm|].
  destruct Hm as (Ha & calls1 & -> & Hn1).
  specialize (Hk a Ha (t ++ calls1)).
  destruct (k a (t ++ calls1)) as [t2 [e|b]].
  - destruct Hk as (pre & c & -> & Hn2 & Hc).
    exists (calls1 ++ pre), c. rewrite <- !app_assoc.
    split; [reflexivity|]. split; [apply no_throw_app; assumption|].
    rewrite app_assoc. exact Hc.
  - destruct Hk as (Hb & calls2 & -> & Hn2).
    split; [exact Hb|]. exists (calls1 ++ calls2).
    rewrite app_assoc. split; [reflexivity|apply no_throw_app; assumption].
Qed.

(** The answers a handler gives when no call throws. *)
Definition ordinary (resp : HttpResponse) : Prop :=
  In (res_status resp) [200; 400; 401; 403; 404].

Lemma runs_cleanly_respond code body :
  In code [200; 400; 401; 403; 404] ->
  runs_cleanly ordinary (respond code body).
Proof. intros H. apply runs_cleanly_ret. exact H. Qed.

Lemma with_owned_scan_cleanly req action :
  (forall scanId scan, runs_cleanly ordinary (action scanId scan)) ->
  runs_cleanly ordinary (with_owned_scan req action).
Proof.
  intros Hact. unfold with_owned_scan.
  destruct (negb (isAuthenticated req));
    [apply runs_cleanly_respond; simpl; tauto|].
  destruct (params_id req) as [scanId|];
    [|apply runs_cleanly_respond; simpl; tauto].
  apply (runs_cleanly_bind (fun _ => True)).
  - apply runs_cleanly_query. intros _. exact I.
  - intros [scan|] _; [|apply runs_cleanly_respond; simpl; tauto].
    destruct (negb (scan_userId scan =? user_id (user req)));
      [apply runs_cleanly_respond; simpl; tauto|apply Hact].
Qed.

(** What a handler whose [try] block runs cleanly answers. *)
Lemma handler_answers m t :
  runs_cleanly ordinary m ->
  exists resp calls,
    try_catch m internal_error t = (t ++ calls, inr resp)
    /\ In (res_status resp) [200; 400; 401; 403; 404; 500]
    /\ ((exists k, throws_at t calls k)
        <-> resp = mkResponse 500 (Message "Internal server error"))
    /\ (forall k, throws_at t calls k -> S k = length calls).
Proof.
  intros Hm. unfold try_catch. specialize (Hm t).
  destruct (m t) as [t' [e|r]].
  - destruct Hm as (pre & c & -> & Hn & Hc).
    exists (mkResponse 500 (Message "Internal server error")), (pre ++ [c]).
    split; [reflexivity|]. split; [simpl; tauto|].
    split; [split; [reflexivity|]|].
    + intros _. exists (length pre), c, e.
      rewrite nth_error_app2, Nat.sub_diag by lia.
      rewrite firstn_app, Nat.sub_diag, firstn_all. simpl.
      rewrite app_nil_r. split; [reflexivity|exact Hc].
    + intros k (d & e' & Hk & Hd). rewrite length_app. simpl.
      destruct (Nat.lt_ge_cases k (length pre)) as [Hlt|Hge]; [|
        assert (k < length (pre ++ [c]))%nat
          by (apply nth_error_Some; congruence);
        rewrite length_app in *; simpl in *; lia].
      exfalso. rewrite nth_error_app1 in Hk by exact Hlt.
      rewrite firstn_app in Hd.
      replace (k - length pre)%nat with 0%nat in Hd by lia.
      simpl in Hd. rewrite app_nil_r in Hd.
      rewrite (Hn k d Hk) in Hd. discriminate Hd.
  - destruct Hm as (Hr & calls & -> & Hn). exists r, calls.
    split; [reflexivity|].
    unfold ordinary in Hr. simpl in Hr.
    split; [simpl; tauto|]. split; [split|].
    + intros (k & d & e & Hk & Hd). rewrite (Hn k d Hk) in Hd.
      discriminate Hd.
    + intros ->. simpl in Hr. intuition discriminate.
    + intros k (d & e & Hk & Hd). rewrite (Hn k d Hk) in Hd.
      discriminate Hd.
Qed.

(** X22.  Every handler answers, whatever the storage does: its status is
    one of 200, 400, 401, 403, 404 and 500, and its answer is 500
    'Internal server error' exactly when one of its storage calls throws,
    which is then the last call it makes. *)
Theorem handlers_always_respond
    (handler : Request -> Effect HttpResponse) (req : Request) (t : Trace)
    (Hhandler : In handler allHandlers) :
  exists resp calls,
    handler req t = (t ++ calls, inr resp)
    /\ In (res_status resp) [200; 400; 401; 403; 404; 500]
    /\ ((exists k, throws_at t calls k)
        <-> resp = mkResponse 500 (Message "Internal server error"))
    /\ (forall k, throws_at t calls k -> S k = length calls).
Proof.
  unfold allHandlers in Hhandler. simpl in Hhandler.
  destruct Hhandler as [<-|[<-|[<-|[<-|[<-|[]]]]]];
    apply handler_answers.
  - apply with_owned_scan_cleanly. intros scanId scan.
    apply runs_cleanly_respond. simpl. tauto.
  - apply with_owned_scan_cleanly. intros scanId scan.
    apply (runs_cleanly_bind (fun _ => True)).
    + apply runs_cleanly_query. intros _. exact I.
    + intros rows _. apply runs_cleanly_respond. simpl. tauto.
  - apply with_owned_scan_cleanly. intros scanId scan.
    apply (runs_cleanly_bind (fun _ => True));
      [apply runs_cleanly_storage; exact I|intros _ _].
    apply (runs_cleanly_bind (fun _ => True));
      [apply runs_cleanly_storage; exact I|intros _ _].
    apply runs_cleanly_respond. simpl. tauto.
  - destruct (negb (isAuthenticated req));
      [apply runs_cleanly_respond; simpl; tauto|].
    apply (runs_cleanly_bind (fun _ => True));
      [apply runs_cleanly_storage; exact I|intros _ _].
    apply (runs_cleanly_bind (fun _ => True));
      [apply runs_cleanly_storage; exact I|intros _ _].
    apply runs_cleanly_respond. simpl. tauto.
  - destruct (negb (isAuthenticated req));
      [apply runs_cleanly_respond; simpl; tauto|].
    apply (runs_cleanly_bind (fun _ => True)).
    + apply runs_cleanly_query. intros _. exact I.
    + intros scans _. apply runs_cleanly_respond. simpl. tauto.
Qed.

End HandlerFacts.

(** User 1 reads scan 7, which is theirs. *)
Lemma scans_are_served_to_their_owner_only_witness :
  let req := mkRequest true (mkUser 1 "alice") (Some 7) in
  let resp := mkResponse 200 (ScanBody demoScan) in
  In (@getScan reliableBackend) (@scanHandlers reliableBackend)
  /\ @getScan reliableBackend req [] = ([GetScan 7], inr resp)
  /\ res_status resp = 200
  /\ exists scanId scan, @owns reliableBackend req [] scanId scan.
Proof.
  cbn zeta.
  assert (Hin : In (@getScan reliableBackend) (@scanHandlers reliableBackend))
    by (left; reflexivity).
  split; [exact Hin|]. split; [reflexivity|]. split; [reflexivity|].
  exact (@scans_are_served_to_their_owner_only reliableBackend
           (@getScan reliableBackend)
           (mkRequest true (mkUser 1 "alice") (Some 7)) [] [GetScan 7]
           (mkResponse 200 (ScanBody demoScan)) Hin eq_refl eq_refl).
Defined.

(** An anonymous request to delete scan 7. *)
Lemma unauthenticated_requests_are_refused_witness :
  let req := mkRequest false (mkUser 0 "") (Some 7) in
  In (@deleteScan reliableBackend) (@allHandlers reliableBackend)
  /\ isAuthenticated req = false
  /\ @deleteScan reliableBackend req []
     = ([], inr (mkResponse 401 (Message "Unauthorized"))).
Proof.
  cbn zeta.
  assert (Hin : In (@deleteScan reliableBackend) (@allHandlers reliableBackend))
    by (right; right; left; reflexivity).
  split; [exact Hin|]. split; [reflexivity|].
  exact (@unauthenticated_requests_are_refused reliableBackend
           (@deleteScan reliableBackend)
           (mkRequest false (mkUser 0 "") (Some 7)) [] Hin eq_refl).
Defined.

(** User 2 asks for the findings of scan 7, which is not theirs; user 1
    asks for scan 7 while the storage is down. *)
Lemma handlers_always_respond_witness :
  let req := mkRequest true (mkUser 2 "bob") (Some 7) in
  let own := mkRequest true (mkUser 1 "alice") (Some 7) in
  In (@getScanVulnerabilities reliableBackend) (@allHandlers reliableBackend)
  /\ In (@getScan brokenBackend) (@allHandlers brokenBackend)
  /\ @getScanVulnerabilities reliableBackend req []
     = ([GetScan 7],
        inr (mkResponse 403 (Message "Unauthorized access to scan")))
  /\ @getScan brokenBackend own []
     = ([GetScan 7], inr (mkResponse 500 (Message "Internal server error")))
  /\ (exists resp calls,
        @getScanVulnerabilities reliableBackend req [] = ([] ++ calls, inr resp)
        /\ In (res_status resp) [200; 400; 401; 403; 404; 500])
  /\ (exists resp calls,
        @getScan brokenBackend own [] = ([] ++ calls, inr resp)
        /\ ((exists k, @throws_at brokenBackend [] calls k)
            <-> resp = mkResponse 500 (Message "Internal server error"))).
Proof.
  cbn zeta.
  assert (Hin : In (@getScanVulnerabilities reliableBackend)
                  (@allHandlers reliableBackend))
    by (right; left; reflexivity).
  assert (Hin' : In (@getScan brokenBackend) (@allHandlers brokenBackend))
    by (left; reflexivity).
  split; [exact Hin|]. split; [exact Hin'|].
  split; [reflexivity|]. split; [reflexivity|].
  split.
  - destruct (@handlers_always_respond reliableBackend
                (@getScanVulnerabilities reliableBackend)
                (mkRequest true (mkUser 2 "bob") (Some 7)) [] Hin)
      as (resp & calls & E & Hs & _).
    exists resp, calls. split; [exact E|exact Hs].
  - destruct (@handlers_always_respond brokenBackend
                (@getScan brokenBackend)
                (mkRequest true (mkUser 1 "alice") (Some 7)) [] Hin')
      as (resp & calls & E & _ & Hiff & _).
    exists resp, calls. split; [exact E|exact Hiff].
Defined.
